(** * Sheet-to-table synchronisation: a shallow embedding of
      [services/sheetsToSupabaseSync.js]

    The development follows the source file top-down: JavaScript values and
    strings, the header normalisation and the row mapper
    ([mapSheetRowToLeadObject]), the paginated reader ([fetchSheetData]), the
    bulk writer ([writeLeadsToSupabase]) and the pass itself
    ([syncSheetsToSupabase]).  The two remote services and the wall clock are
    oracles of an environment; every call made to them is recorded in a
    trace.  The two clients are taken as configured (the environment
    variables are present), and the [console.log]/[console.error]
    diagnostics are not modelled.

    Numbers are integers ([Z]): row numbers, the declared row count and the
    batch size stay far below 2^53, where the arithmetic of the loop is exact
    on JavaScript numbers, and [String(n)] of such an integer is its decimal
    numeral. *)

From Stdlib Require Import ZArith String Ascii List Lia.
From stdpp Require Import base tactics option list sorting gmap strings pretty.

Open Scope Z_scope.
Open Scope string_scope.
Open Scope list_scope.

(** ** JavaScript strings

    A string is a sequence of UTF-16 code units.  The model covers the code
    units U+0000..U+00FF, one [ascii] each (the Latin-1 range); on that range
    [String.prototype.toLowerCase] and the regular-expression class [\s] are
    as below. *)

Module JsString.

(** [toLowerCase] on one code unit: A-Z, and the Latin-1 capitals
    U+00C0..U+00DE except the multiplication sign U+00D7, move up by 32. *)
Definition lower_char (c : ascii) : ascii :=
  let n := N_of_ascii c in
  if ((65 <=? n) && (n <=? 90))%N
     || ((192 <=? n) && (n <=? 222) && negb (n =? 215))%N
  then ascii_of_N (n + 32) else c.

Fixpoint toLowerCase (s : string) : string :=
  match s with
  | EmptyString => EmptyString
  | String c r => String (lower_char c) (toLowerCase r)
  end.

(** The class [\s] below U+0100: TAB, LF, VT, FF, CR, SPACE and the
    no-break space U+00A0. *)
Definition is_whitespace (c : ascii) : bool :=
  let n := N_of_ascii c in
  ((9 <=? n) && (n <=? 13) || (n =? 32) || (n =? 160))%N.

(** [s.replace(/\s+/g, '_')]: every maximal run of whitespace becomes one
    underscore.  [in_run] tells that the previous code unit was whitespace,
    so that the current run has already been replaced. *)
Fixpoint replace_runs (in_run : bool) (s : string) : string :=
  match s with
  | EmptyString => EmptyString
  | String c r =>
      if is_whitespace c
      then (if in_run then replace_runs true r
            else String "_" (replace_runs true r))
      else String c (replace_runs false r)
  end.

Definition replace_whitespace (s : string) : string := replace_runs false s.

(** Predicates used to state what the normalisation does. *)
Fixpoint all_chars (p : ascii -> bool) (s : string) : bool :=
  match s with
  | EmptyString => true
  | String c r => p c && all_chars p r
  end.

(** A word: not empty, no whitespace. *)
Definition is_word (s : string) : Prop :=
  s <> EmptyString /\ all_chars (fun c => negb (is_whitespace c)) s = true.

(** A whitespace run: not empty, whitespace only. *)
Definition is_gap (s : string) : Prop :=
  s <> EmptyString /\ all_chars is_whitespace s = true.

End JsString.

Import JsString.

(** ** JavaScript values and objects *)

(** A cell of a lead object: a string or [null]. *)
Inductive JsValue : Type :=
| JNull
| JStr (s : string).

#[global] Instance JsValue_eq_dec : EqDecision JsValue.
Proof. solve_decision. Defined.

(** A thrown value: an [Error] object, of which the code reads [.message]. *)
Record JsError : Type := mkError { message : string }.

#[global] Instance JsError_eq_dec : EqDecision JsError.
Proof. solve_decision. Defined.

(** A plain object: its own enumerable properties, and whether its prototype
    is still [Object.prototype].  The latter matters for one key only:
    [Object.prototype] carries the accessor [__proto__], so an assignment to
    that key does not create a property as long as the prototype is there. *)
Record JsObject : Type := mkObject {
  own : gmap string JsValue;
  has_proto : bool
}.

#[global] Instance JsObject_eq_dec : EqDecision JsObject.
Proof. solve_decision. Defined.

(** [obj[k] = v] for a string or [null] [v].  With the inherited setter in
    place, [obj["__proto__"] = null] drops the prototype and a string is
    ignored; every other assignment writes an own property. *)
Definition set_prop (k : string) (v : JsValue) (o : JsObject) : JsObject :=
  if decide (k = "__proto__") then
    if has_proto o then
      match v with
      | JNull => {| own := own o; has_proto := false |}
      | JStr _ => o
      end
    else {| own := <[k := v]> (own o); has_proto := false |}
  else {| own := <[k := v]> (own o); has_proto := has_proto o |}.

(** ** The row mapper *)

(** [header.toLowerCase().replace(/\s+/g, '_')] *)
Definition fieldName (header : string) : string :=
  replace_whitespace (toLowerCase header).

(** [index < dataRow.length ? dataRow[index] : null] *)
Definition cell (dataRow : list string) (index : nat) : JsValue :=
  match dataRow !! index with
  | Some v => JStr v
  | None => JNull
  end.

(** The [headerRow.forEach((header, index) => ...)] loop, from position
    [index] on. *)
Fixpoint forEach_header (index : nat) (headerRow dataRow : list string)
    (lead : JsObject) : JsObject :=
  match headerRow with
  | [] => lead
  | header :: rest =>
      forEach_header (S index) rest dataRow
        (set_prop (fieldName header) (cell dataRow index) lead)
  end.

(** [mapSheetRowToLeadObject(headerRow, dataRow, rowIndex)], with the value
    [now] that [new Date().toISOString()] yields at the call.  [String(n)]
    of an integer is its decimal numeral ([pretty]). *)
Definition mapSheetRowToLeadObject_at (now : string)
    (headerRow dataRow : list string) (rowIndex : Z) : JsObject :=
  let lead :=
    {| own := <["last_sync" := JStr now]>
                (<["sheet_row_id" := JStr (pretty rowIndex)]> ∅);
       has_proto := true |} in
  forEach_header 0 headerRow dataRow lead.

(** ** Effects: completions, the world, the environment *)

(** How a piece of code ends: it returns, it raises, or the step budget of the
    model ran out before it did either. *)
Inductive Completion (A : Type) : Type :=
| Normal (a : A)
| Throw (e : JsError)
| OutOfFuel.

Arguments Normal {A} a.
Arguments Throw {A} e.
Arguments OutOfFuel {A}.

#[global] Instance Completion_eq_dec `{EqDecision A} : EqDecision (Completion A).
Proof. solve_decision. Defined.

(** The answer of a remote call: the awaited promise resolves or rejects. *)
Inductive Reply (A : Type) : Type :=
| Resolved (a : A)
| Rejected (e : JsError).

Arguments Resolved {A} a.
Arguments Rejected {A} e.

(** The A1 range [`${sheet}!A${first}:Z${last}`]: columns A to Z of the rows
    [first] to [last] of one sheet tab. *)
Record Range : Type := mkRange {
  rg_sheet : string;
  rg_first : Z;
  rg_last : Z
}.

#[global] Instance Range_eq_dec : EqDecision Range.
Proof. solve_decision. Defined.

(** What the code reads of one [sheets[i].properties]. *)
Record SheetProperties : Type := mkProps {
  title : string;
  rowCount : Z   (* gridProperties.rowCount *)
}.

(** The calls that leave the process, in the order they are made. *)
Inductive Event : Type :=
| ValuesGet (r : Range)              (* sheets.spreadsheets.values.get *)
| SpreadsheetsGet (name : string)    (* sheets.spreadsheets.get *)
| Upsert (leads : list JsObject)     (* supabase.from('leads').upsert *)
| OnError (e : JsError).             (* the caller's callback *)

#[global] Instance Event_eq_dec : EqDecision Event.
Proof. solve_decision. Defined.

(** The collaborators of a pass.  [clock k] is the [k]-th value of
    [new Date().toISOString()] since the world began; [values_get] gives
    [response.data.values] for a range ([None] when the field is absent) and
    [spreadsheets_get] the sheets of the metadata response, both as functions
    of the request: the spreadsheet does not change while it is read;
    [upsert_error k] tells whether the [k]-th bulk write is refused. *)
Record Env : Type := mkEnv {
  clock : nat -> string;
  values_get : Range -> Reply (option (list (list string)));
  spreadsheets_get : string -> Reply (list SheetProperties);
  upsert_error : nat -> option JsError
}.

(** The state a pass runs in: how often the clock was read, the [leads]
    table, how many bulk writes were sent, and the trace of calls. *)
Record World : Type := mkWorld {
  tick : nat;
  table : list (gmap string JsValue);
  upserts : nat;
  trace : list Event
}.

(** Code with effects: a state transformer that ends in a completion.  An
    exception keeps the state reached when it was raised. *)
Definition M (A : Type) : Type := World -> Completion A * World.

#[global] Instance M_ret : MRet M := fun A a w => (Normal a, w).

#[global] Instance M_bind : MBind M := fun A B k m w =>
  match m w with
  | (Normal a, w') => k a w'
  | (Throw e, w') => (Throw e, w')
  | (OutOfFuel, w') => (OutOfFuel, w')
  end.

Definition throw {A} (e : JsError) : M A := fun w => (Throw e, w).

(** [try { body } catch (error) { handler }] *)
Definition try_catch {A} (body : M A) (handler : JsError -> M A) : M A :=
  fun w =>
    match body w with
    | (Throw e, w') => handler e w'
    | done => done
    end.

Definition log_event (ev : Event) : M unit := fun w =>
  (Normal tt,
   {| tick := tick w; table := table w; upserts := upserts w;
      trace := trace w ++ [ev] |}).

(** [await p]: a rejected promise raises at the [await]. *)
Definition await {A} (r : Reply A) : M A :=
  match r with
  | Resolved a => mret a
  | Rejected e => throw e
  end.

(** ** The record store *)

(** Modelled from the spec: the record store is a hosted service, none of its
    code is under src/.  The spec gives its contract: a single table with a
    uniqueness constraint on [sheet_row_id]; an upsert is an insert-or-update
    keyed by that column, a conflicting row has the submitted fields
    overwritten, fields of the stored row that the submitted record does not
    name are left untouched; a refused upsert is rejected as a whole. *)
Module Store.

Definition conflict_key (row : gmap string JsValue) : option JsValue :=
  row !! "sheet_row_id".

Fixpoint upsert_row (r : gmap string JsValue)
    (rows : list (gmap string JsValue)) : list (gmap string JsValue) :=
  match rows with
  | [] => [r]
  | x :: rest =>
      if decide (conflict_key x = conflict_key r)
      then (r ∪ x) :: rest
      else x :: upsert_row r rest
  end.

Definition upsert (leads : list JsObject)
    (rows : list (gmap string JsValue)) : list (gmap string JsValue) :=
  foldl (fun acc lead => upsert_row (own lead) acc) rows leads.

Definition keys (rows : list (gmap string JsValue)) : list (option JsValue) :=
  conflict_key <$> rows.

End Store.

(** ** The pass *)

(** One element of [allData]. *)
Record SheetRow : Type := mkSheetRow {
  headerRow : list string;
  dataRow : list string;
  rowIndex : Z
}.

(** The result object of [syncSheetsToSupabase]:
    [{success: true, syncStartTime, syncEndTime, rowsProcessed}] or
    [{success: false, syncStartTime, syncEndTime, error}]. *)
Inductive SyncResult : Type :=
| Success (syncStartTime syncEndTime : string) (rowsProcessed : nat)
| Failure (syncStartTime syncEndTime : string) (error : string).

#[global] Instance SyncResult_eq_dec : EqDecision SyncResult.
Proof. solve_decision. Defined.

Definition success (r : SyncResult) : bool :=
  match r with Success _ _ _ => true | Failure _ _ _ => false end.

(** The [options] argument; [None] is a property left [undefined], for which
    the destructuring default applies. *)
Record Options : Type := mkOptions {
  opt_sheetName : option string;
  opt_batchSize : option Z;
  opt_forceFullSync : option bool;
  opt_onError : option (JsError -> Completion unit)
}.

(** The texts of the two [TypeError]s the reader can raise (V8 wording). *)
Definition values_undefined : JsError :=
  mkError "Cannot read properties of undefined (reading '0')".
Definition sheet_undefined : JsError :=
  mkError "Cannot read properties of undefined (reading 'properties')".
Definition no_header : JsError :=
  mkError "Could not find header row in sheet".

Section Pass.

Context (env : Env).

(** [new Date().toISOString()] *)
Definition now : M string := fun w =>
  (Normal (clock env (tick w)),
   {| tick := S (tick w); table := table w; upserts := upserts w;
      trace := trace w |}).

Definition mapSheetRowToLeadObject (headerRow dataRow : list string)
    (rowIndex : Z) : M JsObject :=
  stamp ← now;
  mret (mapSheetRowToLeadObject_at stamp headerRow dataRow rowIndex).

(** The body of [rows.forEach((row, index) => allData.push(...))]. *)
Definition push_rows (headerRow : list string) (startRow : Z)
    (rows : list (list string)) (allData : list SheetRow) : list SheetRow :=
  allData ++
  imap (fun index row => mkSheetRow headerRow row (startRow + Z.of_nat index))
       rows.

(** [for (let startRow = ...; startRow < totalRows; startRow += batchSize)],
    entered with the current [startRow]; one unit of [fuel] per iteration. *)
Fixpoint fetch_batches (fuel : nat) (sheetName : string) (batchSize : Z)
    (headerRow : list string) (totalRows startRow : Z)
    (allData : list SheetRow) : M (list SheetRow) :=
  if (startRow <? totalRows)%Z then
    match fuel with
    | O => fun w => (OutOfFuel, w)
    | S fuel' =>
        let endRow := Z.min (startRow + batchSize - 1) totalRows in
        let range := mkRange sheetName startRow endRow in
        log_event (ValuesGet range);;
        values ← await (values_get env range);
        let rows := default [] values in
        if (List.length rows =? 0)%nat then mret allData
        else
          fetch_batches fuel' sheetName batchSize headerRow totalRows
            (startRow + batchSize) (push_rows headerRow startRow rows allData)
    end
  else mret allData.

Definition fetchSheetData (fuel : nat) (sheetName : option string)
    (batchSize : option Z) : M (list SheetRow) :=
  let sheetName := default "Sheet1" sheetName in
  let batchSize := default 50 batchSize in
  try_catch
    (let range := mkRange sheetName 1 1 in
     log_event (ValuesGet range);;
     values ← await (values_get env range);
     headerRow ←
       match values with
       | None => throw values_undefined
       | Some [] => throw no_header
       | Some (headerRow :: _) => mret headerRow
       end;
     log_event (SpreadsheetsGet sheetName);;
     sheets ← await (spreadsheets_get env sheetName);
     totalRows ←
       match List.find (fun s => String.eqb (title s) sheetName) sheets with
       | None => throw sheet_undefined
       | Some sheetProperties => mret (rowCount sheetProperties)
       end;
     fetch_batches fuel sheetName batchSize headerRow totalRows 2 [])
    (fun error => throw error).

(** The success value [{success: true, count: leads.length}]. *)
Record WriteResult : Type := mkWriteResult {
  wr_success : bool;
  wr_count : nat
}.

(** One [upsert(leads, {onConflict: 'sheet_row_id'})] request: an [error] in
    the answer is raised, otherwise the table has taken the payload. *)
Definition writeLeadsToSupabase (leads : list JsObject) : M WriteResult :=
  try_catch
    (fun w =>
       let sent :=
         {| tick := tick w; table := table w; upserts := S (upserts w);
            trace := trace w ++ [Upsert leads] |} in
       match upsert_error env (upserts w) with
       | Some error => (Throw error, sent)
       | None =>
           (Normal (mkWriteResult true (List.length leads)),
            {| tick := tick sent; table := Store.upsert leads (table sent);
               upserts := upserts sent; trace := trace sent |})
       end)
    (fun error => throw error).

(** [onError(error)]: the caller's callback runs outside the world of the
    pass; only the way it ends is visible to the pass (it returns, it raises,
    or it never comes back). *)
Definition call_onError (onError : JsError -> Completion unit)
    (error : JsError) : M unit :=
  log_event (OnError error);;
  ((fun w => (onError error, w)) : M unit).

Definition syncSheetsToSupabase (fuel : nat) (options : Options)
    : M SyncResult :=
  let sheetName := default "Sheet1" (opt_sheetName options) in
  let batchSize := default 50 (opt_batchSize options) in
  let forceFullSync := default false (opt_forceFullSync options) in
  let onError := default (fun _ => Normal tt) (opt_onError options) in
  syncStartTime ← now;
  try_catch
    (sheetData ← fetchSheetData fuel (Some sheetName) (Some batchSize);
     leads ← mapM (fun r =>
                mapSheetRowToLeadObject (headerRow r) (dataRow r) (rowIndex r))
              sheetData;
     result ← writeLeadsToSupabase leads;
     syncEndTime ← now;
     mret (Success syncStartTime syncEndTime (List.length leads)))
    (fun error =>
       call_onError onError error;;
       syncEndTime ← now;
       mret (Failure syncStartTime syncEndTime (message error))).

End Pass.

(** ** The spreadsheet source *)

(** Modelled from the spec: the spreadsheet source is a hosted service, none
    of its code is under src/.  The spec gives its contract: a named sheet
    exposes a header row and a bounded grid of string cells, and supports
    ranged reads; a read can return zero rows.  A sheet is its title, its
    declared row count and its rows from row 1 on (the header); a ranged
    read gives the rows of the range, columns A to Z, without the blank rows
    at the end of the range, and no [values] field when nothing is left. *)
Module Sheets.

Record Sheet : Type := mkSheet {
  sh_title : string;
  sh_rowCount : Z;
  sh_rows : list (list string)
}.

Definition is_blank (row : list string) : bool :=
  forallb (fun c => String.eqb c EmptyString) row.

Fixpoint trim_blank (rows : list (list string)) : list (list string) :=
  match rows with
  | [] => []
  | row :: rest =>
      match trim_blank rest with
      | [] => if is_blank row then [] else [row]
      | kept => row :: kept
      end
  end.

(** Rows [first] to [last], counted from 1. *)
Definition slice (first last : Z) (rows : list (list string))
    : list (list string) :=
  take (Z.to_nat (last - first + 1)) (drop (Z.to_nat (first - 1)) rows).

Definition bad_range : JsError := mkError "Unable to parse range".

Definition read (sh : Sheet) (r : Range)
    : Reply (option (list (list string))) :=
  if negb (String.eqb (rg_sheet r) (sh_title sh)) || (rg_first r <? 1)%Z
  then Rejected bad_range
  else
    match trim_blank (take 26 <$> slice (rg_first r) (rg_last r) (sh_rows sh)) with
    | [] => Resolved None
    | rows => Resolved (Some rows)
    end.

Definition metadata (sh : Sheet) (name : string)
    : Reply (list SheetProperties) :=
  if String.eqb name (sh_title sh)
  then Resolved [mkProps (sh_title sh) (sh_rowCount sh)]
  else Rejected bad_range.

(** The environment of a pass over the sheet [sh]. *)
Definition env_of (clk : nat -> string) (faults : nat -> option JsError)
    (sh : Sheet) : Env :=
  mkEnv clk (read sh) (metadata sh) faults.

End Sheets.

(** ** Reading a finished pass *)

Definition initial_world : World := mkWorld 0 [] 0 [].

(** The world with an empty trace: the start of a pass whose calls are to be
    told apart from earlier ones. *)
Definition fresh_trace (w : World) : World :=
  mkWorld (tick w) (table w) (upserts w) [].

(** The payloads of the bulk writes of a trace, in order. *)
Definition submitted (tr : list Event) : list (list JsObject) :=
  omap (fun ev => match ev with Upsert leads => Some leads | _ => None end) tr.

(** The properties of the lead objects of a payload, as they are sent. *)
Definition fields_of (leads : list JsObject) : list (gmap string JsValue) :=
  own <$> leads.

(** The ranges read, in order. *)
Definition reads (tr : list Event) : list Range :=
  omap (fun ev => match ev with ValuesGet r => Some r | _ => None end) tr.

(** The [sheet_row_id] and [last_sync] of a lead object. *)
Definition sheet_row_id (lead : JsObject) : option JsValue :=
  own lead !! "sheet_row_id".
Definition last_sync (lead : JsObject) : option JsValue :=
  own lead !! "last_sync".

(** ** The sheet of the worked example *)

Module Example.

Definition sheet (declared : Z) : Sheets.Sheet :=
  Sheets.mkSheet "Sheet1" declared
    [ ["Name"; "Email"]; ["Alice"; "a@x.com"]; ["Bob"; "b@x.com"] ].

(** A clock that moves by one second between two readings (its first ten
    readings are the ISO strings of seconds 0 to 9). *)
Definition clk (k : nat) : string :=
  "2026-01-01T00:00:0" +:+ pretty k +:+ ".000Z".

Definition env (declared : Z) : Env :=
  Sheets.env_of clk (fun _ => None) (sheet declared).

Definition options (batchSize : Z) : Options :=
  mkOptions None (Some batchSize) None None.

Definition alice (stamp : string) : gmap string JsValue :=
  {[ "name" := JStr "Alice"; "email" := JStr "a@x.com";
     "sheet_row_id" := JStr "2"; "last_sync" := JStr stamp ]}.

Definition bob (stamp : string) : gmap string JsValue :=
  {[ "name" := JStr "Bob"; "email" := JStr "b@x.com";
     "sheet_row_id" := JStr "3"; "last_sync" := JStr stamp ]}.

(** The lead object of a data row of the sheet. *)
Definition lead (stamp : string) (row : list string) (rowIndex : Z)
    : JsObject :=
  mapSheetRowToLeadObject_at stamp ["Name"; "Email"] row rowIndex.

Definition stamps (leads : list JsObject) : list (option JsValue) :=
  last_sync <$> leads.

Definition ids (leads : list JsObject) : list (option JsValue) :=
  sheet_row_id <$> leads.

End Example.

(** ** Vocabulary of the statements *)

(** The spec's wording of the normalisation, for a header made of words
    separated by whitespace runs: lowercase, each interior whitespace run
    replaced with a single underscore.  [phrase w rest] is the header
    [w gap1 w1 gap2 w2 ...]; [spec_snake_case] is what the spec says it
    becomes. *)
Fixpoint phrase (w : string) (rest : list (string * string)) : string :=
  match rest with
  | [] => w
  | (gap, w') :: rest' => w +:+ gap +:+ phrase w' rest'
  end.

Fixpoint spec_snake_case (w : string) (rest : list (string * string)) : string :=
  match rest with
  | [] => toLowerCase w
  | (_, w') :: rest' => toLowerCase w +:+ "_" +:+ spec_snake_case w' rest'
  end.

(** What a whitespace run at either end of the header becomes: the regular
    expression does not tell it apart from an interior one. *)
Definition boundary (run : string) : string :=
  match run with
  | EmptyString => EmptyString
  | String _ _ => "_"
  end.

(** The parts of a header and their separators are words and gaps. *)
Definition well_spaced (w : string) (rest : list (string * string)) : Prop :=
  is_word w /\ Forall (fun p => is_gap p.1 /\ is_word p.2) rest.

(** The start time a result carries. *)
Definition syncStartTime (r : SyncResult) : string :=
  match r with Success start _ _ | Failure start _ _ => start end.

(** The world after the calls [evs]. *)
Definition add_events (evs : list Event) (w : World) : World :=
  mkWorld (tick w) (table w) (upserts w) (trace w ++ evs).

(** The range of batch number [k] of a loop that starts at row [s]. *)
Definition batch_range (name : string) (b total s : Z) (k : nat) : Range :=
  let startRow := s + Z.of_nat k * b in
  mkRange name startRow (Z.min (startRow + b - 1) total).

(** The stored records whose conflict key is [k]. *)
Definition matching (k : option JsValue) (rows : list (gmap string JsValue))
    : list (gmap string JsValue) :=
  filter (fun row => Store.conflict_key row = k) rows.

(** A lead object without its [last_sync]. *)
Definition erase_last_sync (lead : JsObject) : gmap string JsValue :=
  delete "last_sync" (own lead).

Definition same_but_last_sync (o1 o2 : JsObject) : Prop :=
  delete "last_sync" (own o1) = delete "last_sync" (own o2)
  /\ has_proto o1 = has_proto o2.

(** The pass returned [{success: true, ...}]. *)
Definition succeeded (c : Completion SyncResult) : Prop :=
  exists r, c = Normal r /\ success r = true.

(** The payloads of a trace without their [last_sync]. *)
Definition erased (tr : list Event) : list (list (gmap string JsValue)) :=
  (fun leads : list JsObject => erase_last_sync <$> leads) <$> submitted tr.

Section ClosedForm.

Context (env : Env).

(** The lead objects of the rows [rows] when the first of them is mapped at
    clock reading [k]: one reading per row, in order. *)
Definition stamp_rows (k : nat) (rows : list SheetRow) : list JsObject :=
  imap (fun i r =>
          mapSheetRowToLeadObject_at (clock env (k + i))
            (headerRow r) (dataRow r) (rowIndex r))
       rows.

(** What the rest of the pass does once the reader has ended with [c] in
    the world [w]: the closed form of the code after [fetchSheetData]. *)
Definition fail (onError : JsError -> Completion unit) (start : string)
    (e : JsError) (w : World) : Completion SyncResult * World :=
  let w1 := add_events [OnError e] w in
  match onError e with
  | Normal _ =>
      (Normal (Failure start (clock env (tick w)) (message e)),
       mkWorld (S (tick w1)) (table w1) (upserts w1) (trace w1))
  | Throw e' => (Throw e', w1)
  | OutOfFuel => (OutOfFuel, w1)
  end.

Definition finish (onError : JsError -> Completion unit) (start : string)
    (c : Completion (list SheetRow)) (w : World)
    : Completion SyncResult * World :=
  match c with
  | Normal rows =>
      let leads := stamp_rows (tick w) rows in
      let t := (tick w + List.length rows)%nat in
      let tr := trace w ++ [Upsert leads] in
      match upsert_error env (upserts w) with
      | Some e =>
          fail onError start e (mkWorld t (table w) (S (upserts w)) tr)
      | None =>
          (Normal (Success start (clock env t) (List.length leads)),
           mkWorld (S t) (Store.upsert leads (table w)) (S (upserts w)) tr)
      end
  | Throw e => fail onError start e w
  | OutOfFuel => (OutOfFuel, w)
  end.

(** A ranged read returns no more rows than its range spans. *)
Definition bounded_reads : Prop :=
  forall (r : Range) (rows : list (list string)),
    values_get env r = Resolved (Some rows) ->
    Z.of_nat (List.length rows) <= rg_last r - rg_first r + 1.

End ClosedForm.

Section SheetShape.

Context (sh : Sheets.Sheet).

(** The rows of the sheet as a read shows them (columns A to Z). *)
Definition visible : list (list string) := take 26 <$> Sheets.sh_rows sh.

(** No data row is blank: the data is one block right below the header. *)
Definition contiguous : Prop :=
  Forall (fun row => Sheets.is_blank row = false) (drop 1 visible).

(** The data ends before the last row of the grid. *)
Definition spare_row : Prop :=
  Z.of_nat (List.length (Sheets.sh_rows sh)) < Sheets.sh_rowCount sh.

(** The rows from row [s] to the end of the data, numbered. *)
Definition rows_from (H : list string) (s : Z) : list SheetRow :=
  imap (fun i row => mkSheetRow H row (s + Z.of_nat i))
       (drop (Z.to_nat (s - 1)) visible).

End SheetShape.

(** ** Further sheets and sources of the examples *)

(** A source stub over the sheet of the worked example (declared row count
    10) that rejects the read starting at row 3: with batch size 1, batch 0
    succeeds and batch 1 fails. *)
Module Stub.

Definition quota : JsError := mkError "Quota exceeded".

Definition env : Env :=
  mkEnv Example.clk
    (fun r => if (rg_first r =? 3)%Z then Rejected quota
              else Sheets.read (Example.sheet 10) r)
    (Sheets.metadata (Example.sheet 10))
    (fun _ => None).

(** A sheet without any row at all. *)
Definition empty_env : Env :=
  Sheets.env_of Example.clk (fun _ => None) (Sheets.mkSheet "Sheet1" 1000 []).

End Stub.

(** A sheet that has a column of its own called "Sheet Row ID". *)
Module Collision.

Definition sheet : Sheets.Sheet :=
  Sheets.mkSheet "Sheet1" 1000
    [ ["Sheet Row ID"; "Name"]; ["7"; "Ann"]; ["7"; "Bob"] ].

Definition env : Env := Sheets.env_of Example.clk (fun _ => None) sheet.

End Collision.

(** A sheet with a blank row inside its data. *)
Module Gap.

Definition sheet : Sheets.Sheet :=
  Sheets.mkSheet "Sheet1" 1000 [ ["Name"]; ["a"]; []; ["c"] ].

Definition env : Env := Sheets.env_of Example.clk (fun _ => None) sheet.

End Gap.

(** ** The rest of the service file and its callers *)

(** *** The key of the service account ([getGoogleSheetsClient]) *)

Module PrivateKey.

Definition backslash : ascii := "092".
Definition newline : ascii := "010".
Definition letter_n : ascii := "110".

(** [process.env.GOOGLE_PRIVATE_KEY.replace(/\\n/g, '\n')]: every backslash
    followed by the letter n becomes one line feed; the scan goes on after
    the pair. *)
Fixpoint privateKey (raw : string) : string :=
  match raw with
  | EmptyString => EmptyString
  | String c rest =>
      match rest with
      | EmptyString => String c EmptyString
      | String d rest' =>
          if Ascii.eqb c backslash && Ascii.eqb d letter_n
          then String newline (privateKey rest')
          else String c (privateKey rest)
      end
  end.

(** Does the string hold a backslash followed by the letter n? *)
Fixpoint has_pair (s : string) : bool :=
  match s with
  | EmptyString => false
  | String c rest =>
      match rest with
      | EmptyString => false
      | String d _ =>
          (Ascii.eqb c backslash && Ascii.eqb d letter_n) || has_pair rest
      end
  end.

(** The form the file header asks the variable to have: the key "with
    newlines as \n", every line feed written as backslash, n. *)
Fixpoint one_line (key : string) : string :=
  match key with
  | EmptyString => EmptyString
  | String c rest =>
      if Ascii.eqb c newline
      then String backslash (String letter_n (one_line rest))
      else String c (one_line rest)
  end.

End PrivateKey.

(** *** The trigger endpoint ([pages/api/sync-sheets.js]) *)

Module Api.

(** The JSON bodies the handler sends. *)
Inductive Body : Type :=
| MethodNotAllowed                        (* {error: 'Method not allowed'} *)
| SyncFailed (details : string)           (* {error: 'Sync failed', details} *)
| Synced (message : string) (syncStartTime syncEndTime : string)
         (rowsProcessed : nat)            (* {success: true, message, ...result} *)
| Unexpected (message : string).          (* {error: 'Unexpected error during sync', message} *)

Record Response : Type := mkResponse {
  status : Z;
  body : Body
}.

#[global] Instance Body_eq_dec : EqDecision Body.
Proof. solve_decision. Defined.

#[global] Instance Response_eq_dec : EqDecision Response.
Proof. solve_decision. Defined.

(** [syncSheetsToSupabase()] : no argument, every option at its default. *)
Definition no_options : Options := mkOptions None None None None.

(** [handler(req, res)], as a function of [req.method]. *)
Definition handler (env : Env) (fuel : nat) (method : string) : M Response :=
  if negb (String.eqb method "POST") && negb (String.eqb method "GET")
  then mret (mkResponse 405 MethodNotAllowed)
  else
    try_catch
      (result ← syncSheetsToSupabase env fuel no_options;
       match result with
       | Failure _ _ error => mret (mkResponse 500 (SyncFailed error))
       | Success syncStartTime syncEndTime rowsProcessed =>
           mret (mkResponse 200
                   (Synced ("Successfully synced " +:+ pretty rowsProcessed
                            +:+ " leads")
                           syncStartTime syncEndTime rowsProcessed))
       end)
      (fun error => mret (mkResponse 500 (Unexpected (message error)))).

End Api.

(** *** The command line ([require.main === module]) *)

(** [syncSheetsToSupabase().then(... process.exit(0)).catch(... process.exit(1))]:
    the exit status of the process. *)
Definition main (env : Env) (fuel : nat) : M Z :=
  fun w =>
    match syncSheetsToSupabase env fuel Api.no_options w with
    | (Normal result, w') => (Normal 0, w')
    | (Throw error, w') => (Normal 1, w')
    | (OutOfFuel, w') => (OutOfFuel, w')
    end.

(** *** The pages of the dashboard ([Dashboard] in [web/nextjsApp.js]) *)

Module Dashboard.

(** The [pagination] state. *)
Record Pagination : Type := mkPagination {
  page : Z;
  pageSize : Z;
  totalCount : Z
}.

(** [useState({page: 1, pageSize: 10, totalCount: 0})] *)
Definition initial : Pagination := mkPagination 1 10 0.

(** [const from = (pagination.page - 1) * pagination.pageSize] *)
Definition range_from (p : Pagination) : Z := (page p - 1) * pageSize p.

(** [const to = from + pagination.pageSize - 1] *)
Definition range_to (p : Pagination) : Z := range_from p + pageSize p - 1.

(** [Math.ceil(a / b)] of two integers, [b] not zero: the least integer not
    below the quotient. *)
Definition ceil_div (a b : Z) : Z := - ((- a) / b).

(** [const totalPages = Math.ceil(pagination.totalCount / pagination.pageSize)] *)
Definition totalPages (p : Pagination) : Z :=
  ceil_div (totalCount p) (pageSize p).

(** [disabled={pagination.page === 1}] of the Previous button. *)
Definition previous_disabled (p : Pagination) : bool := (page p =? 1)%Z.

(** [disabled={pagination.page >= totalPages}] of the Next button. *)
Definition next_disabled (p : Pagination) : bool := (totalPages p <=? page p)%Z.

(** [handlePageChange(newPage)]: [setPagination({...pagination, page: newPage})] *)
Definition handlePageChange (newPage : Z) (p : Pagination) : Pagination :=
  mkPagination newPage (pageSize p) (totalCount p).

(** The end of [fetchLeads]:
    [setPagination({...pagination, totalCount: count || 0})]. *)
Definition set_count (count : option Z) (p : Pagination) : Pagination :=
  mkPagination (page p) (pageSize p) (default 0 count).

(** What a user can do: press a button that is not disabled. *)
Inductive click : Pagination -> Pagination -> Prop :=
| click_previous p :
    previous_disabled p = false -> click p (handlePageChange (page p - 1) p)
| click_next p :
    next_disabled p = false -> click p (handlePageChange (page p + 1) p).

(** The life of the component, as the list of the states it went through,
    the current one first.  A button is pressed in the current state; a
    fetch that ends writes the count into the state its closure was created
    in, which is the current state or an earlier one. *)
Inductive step : list Pagination -> list Pagination -> Prop :=
| step_click p q past :
    click p q -> step (p :: past) (q :: p :: past)
| step_fetched p snapshot past count :
    snapshot ∈ p :: past ->
    step (p :: past) (set_count count snapshot :: p :: past).

End Dashboard.

(** A source that answers every ranged read with one row, and a callback
    that raises what it is given. *)
Module Endless.

Definition env : Env :=
  mkEnv Example.clk
    (fun _ => Resolved (Some [["a"]]))
    (fun name => Resolved [mkProps name 10])
    (fun _ => None).

Definition rethrow : Options :=
  mkOptions None None None (Some (fun e => Throw e)).

(** The same callback, with a batch size. *)
Definition rethrow_in_batches (batchSize : Z) : Options :=
  mkOptions None (Some batchSize) None (Some (fun e => Throw e)).

End Endless.

(** A spreadsheet whose metadata does not list the tab that is read, and a
    sheet that has a header row and nothing else. *)
Module Untitled.

Definition env : Env :=
  mkEnv Example.clk
    (Sheets.read (Example.sheet 10))
    (fun _ => Resolved [mkProps "Other" 10])
    (fun _ => None).

End Untitled.

Module Bare.

Definition sheet : Sheets.Sheet := Sheets.mkSheet "Sheet1" 1000 [ ["Name"] ].

Definition env : Env := Sheets.env_of Example.clk (fun _ => None) sheet.

End Bare.

(** ** Vocabulary of the further statements *)

(** A call that only reads the spreadsheet. *)
Definition is_read (ev : Event) : bool :=
  match ev with
  | ValuesGet _ | SpreadsheetsGet _ => true
  | Upsert _ | OnError _ => false
  end.

(** The errors handed to the caller's callback, in order. *)
Definition callbacks (tr : list Event) : list JsError :=
  omap (fun ev => match ev with OnError e => Some e | _ => None end) tr.

(** The ranges of the first [m] iterations of the loop of [fetchSheetData]
    over a grid of [total] rows. *)
Definition data_reads (name : string) (b total : Z) (m : nat) : list Range :=
  batch_range name b total 2 <$> seq 0 m.

(** The callback a pass ends up with. *)
Definition onError_of (options : Options) : JsError -> Completion unit :=
  default (fun _ => Normal tt) (opt_onError options).

(** * Properties *)

(** Closed, decidable statements about a concrete pass are settled by
    running the pass. *)
Ltac by_running :=
  intros;
  repeat match goal with x := _ |- _ => subst x end;
  apply (bool_decide_unpack _); vm_compute; exact I.

(** ** Header normalisation *)

Section Normalisation.

Lemma is_whitespace_lower_char c :
  is_whitespace (lower_char c) = is_whitespace c.
Proof. destruct c as [[] [] [] [] [] [] [] []]; reflexivity. Qed.

Lemma app_String c a b : String c a +:+ b = String c (a +:+ b).
Proof. reflexivity. Qed.

Lemma app_empty_l a : EmptyString +:+ a = a.
Proof. reflexivity. Qed.

Lemma app_empty_r a : a +:+ EmptyString = a.
Proof. induction a as [|c a IH]; [done | by rewrite app_String, IH]. Qed.

Lemma app_assoc_s a b c : (a +:+ b) +:+ c = a +:+ (b +:+ c).
Proof.
  induction a as [|x a IH]; [done|]. by rewrite !app_String, IH.
Qed.

Lemma toLowerCase_app a b :
  toLowerCase (a +:+ b) = toLowerCase a +:+ toLowerCase b.
Proof.
  induction a as [|c a IH]; [done|].
  rewrite app_String. simpl. by rewrite IH, app_String.
Qed.

Lemma all_chars_toLowerCase_ws s :
  all_chars is_whitespace (toLowerCase s) = all_chars is_whitespace s.
Proof.
  induction s as [|c s IH]; simpl; [done|].
  by rewrite is_whitespace_lower_char, IH.
Qed.

Lemma all_chars_toLowerCase_nows s :
  all_chars (fun c => negb (is_whitespace c)) (toLowerCase s)
  = all_chars (fun c => negb (is_whitespace c)) s.
Proof.
  induction s as [|c s IH]; simpl; [done|].
  by rewrite is_whitespace_lower_char, IH.
Qed.

Lemma is_word_toLowerCase w : is_word w -> is_word (toLowerCase w).
Proof.
  intros [Hne Hall]; split.
  - destruct w; [done | discriminate].
  - by rewrite all_chars_toLowerCase_nows.
Qed.

Lemma is_gap_toLowerCase g : is_gap g -> is_gap (toLowerCase g).
Proof.
  intros [Hne Hall]; split.
  - destruct g; [done | discriminate].
  - by rewrite all_chars_toLowerCase_ws.
Qed.

(** Code units that are not whitespace are copied, and end any run. *)
Lemma replace_runs_copy w s :
  all_chars (fun c => negb (is_whitespace c)) w = true ->
  replace_runs false (w +:+ s) = w +:+ replace_runs false s.
Proof.
  induction w as [|c w IH]; [done|].
  rewrite !app_String. simpl.
  intros [Hc Hw]%andb_prop. apply negb_true_iff in Hc.
  rewrite Hc. f_equal. by apply IH.
Qed.

Lemma replace_runs_word b w s :
  is_word w -> replace_runs b (w +:+ s) = w +:+ replace_runs false s.
Proof.
  intros [Hne Hall]. destruct w as [|c w]; [done|].
  rewrite !app_String. simpl in *.
  apply andb_prop in Hall as [Hc Hw]. apply negb_true_iff in Hc.
  rewrite Hc. f_equal. by apply replace_runs_copy.
Qed.

(** Inside a run, further whitespace disappears. *)
Lemma replace_runs_skip g s :
  all_chars is_whitespace g = true ->
  replace_runs true (g +:+ s) = replace_runs true s.
Proof.
  induction g as [|c g IH]; [done|].
  rewrite app_String. simpl.
  intros [Hc Hg]%andb_prop. rewrite Hc. by apply IH.
Qed.

(** A run met outside a run gives exactly one underscore. *)
Lemma replace_runs_gap g s :
  is_gap g -> replace_runs false (g +:+ s) = "_" +:+ replace_runs true s.
Proof.
  intros [Hne Hall]. destruct g as [|c g]; [done|].
  rewrite !app_String. simpl in *.
  apply andb_prop in Hall as [Hc Hg]. rewrite Hc. f_equal.
  by apply replace_runs_skip.
Qed.

Lemma replace_runs_boundary b run :
  all_chars is_whitespace run = true ->
  replace_runs b (toLowerCase run)
  = if b then EmptyString else boundary run.
Proof.
  intros Hrun. destruct run as [|c run]; [by destruct b|].
  assert (is_gap (toLowerCase (String c run))) as Hgap
    by (apply is_gap_toLowerCase; by split).
  destruct b.
  - pose proof (replace_runs_skip (toLowerCase (String c run)) EmptyString
                  (proj2 Hgap)) as E.
    by rewrite app_empty_r in E.
  - pose proof (replace_runs_gap (toLowerCase (String c run)) EmptyString Hgap)
      as E.
    by rewrite app_empty_r in E.
Qed.

Lemma replace_runs_phrase b w rest trail :
  well_spaced w rest ->
  all_chars is_whitespace trail = true ->
  replace_runs b (toLowerCase (phrase w rest +:+ trail))
  = spec_snake_case w rest +:+ boundary trail.
Proof.
  intros [Hw Hrest] Htrail. revert b w Hw.
  induction Hrest as [|[gap w'] rest [Hgap Hw'] _ IH]; intros b w Hw; simpl.
  - rewrite toLowerCase_app.
    rewrite replace_runs_word by by apply is_word_toLowerCase.
    by rewrite replace_runs_boundary.
  - simpl in Hgap, Hw'.
    rewrite !app_assoc_s, !toLowerCase_app.
    rewrite replace_runs_word by by apply is_word_toLowerCase.
    rewrite replace_runs_gap by by apply is_gap_toLowerCase.
    rewrite <- toLowerCase_app.
    by rewrite (IH true w' Hw'), ?app_assoc_s.
Qed.

Lemma replace_runs_header lead w rest trail :
  all_chars is_whitespace lead = true ->
  well_spaced w rest ->
  all_chars is_whitespace trail = true ->
  fieldName (lead +:+ phrase w rest +:+ trail)
  = boundary lead +:+ spec_snake_case w rest +:+ boundary trail.
Proof.
  intros Hlead Hwell Htrail. unfold fieldName, replace_whitespace.
  destruct lead as [|c lead].
  - rewrite !app_empty_l. by apply replace_runs_phrase.
  - rewrite toLowerCase_app.
    rewrite replace_runs_gap by (apply is_gap_toLowerCase; by split).
    f_equal. by apply replace_runs_phrase.
Qed.

(** Every string is whitespace only, or words separated by gaps between two
    (possibly empty) whitespace runs. *)
Lemma header_shape s :
  all_chars is_whitespace s = true
  \/ exists lead w rest trail,
       all_chars is_whitespace lead = true
       /\ well_spaced w rest
       /\ all_chars is_whitespace trail = true
       /\ s = lead +:+ phrase w rest +:+ trail.
Proof.
  induction s as [|c s IH]; [by left|].
  destruct (is_whitespace c) eqn:Hc.
  - destruct IH as [Hall | (lead & w & rest & trail & Hl & Hw & Ht & ->)].
    + left. simpl. by rewrite Hc.
    + right. exists (String c lead), w, rest, trail.
      split_and!; try done. simpl. by rewrite Hc.
  - right.
    assert (is_word (String c EmptyString)) as Hone
      by (split; [done | simpl; by rewrite Hc]).
    destruct IH as [Hall | (lead & w & rest & trail & Hl & [Hw Hr] & Ht & ->)].
    + exists EmptyString, (String c EmptyString), [], s.
      split_and!; done.
    + destruct lead as [|d lead].
      * exists EmptyString, (String c w), rest, trail.
        split_and!; try done.
        -- split; [|done]. split; [done|].
           simpl. rewrite Hc. simpl. apply Hw.
        -- rewrite !app_empty_l. by destruct rest as [|[gap w'] rest].
      * exists EmptyString, (String c EmptyString), ((String d lead, w) :: rest),
          trail.
        split_and!; try done.
        -- split; [done|]. constructor; [|done]. split; [by split | done].
        -- rewrite !app_empty_l. simpl. by rewrite ?app_assoc_s.
Qed.

End Normalisation.

(** C7. Every header cell is whitespace only, or words separated by
    whitespace runs, between two possibly empty whitespace runs.  The field
    name of the latter is the lowercased words joined by single underscores:
    the normalisation lowercases the header and replaces each interior
    whitespace run with one underscore (a run at either end gives one
    underscore as well; a header of whitespace only gives a single
    underscore, the empty header the empty name).  In particular
    "Full Name" gives full_name. *)
Theorem fieldName_snake_case :
  (forall header : string,
      (all_chars is_whitespace header = true
       /\ fieldName header = boundary header)
      \/ exists lead w rest trail,
           all_chars is_whitespace lead = true
           /\ well_spaced w rest
           /\ all_chars is_whitespace trail = true
           /\ header = lead +:+ phrase w rest +:+ trail
           /\ fieldName header
              = boundary lead +:+ spec_snake_case w rest +:+ boundary trail)
  /\ fieldName "Full Name" = "full_name".
Proof.
  split; [|reflexivity].
  intros header.
  destruct (header_shape header)
    as [Hall | (lead & w & rest & trail & Hl & Hw & Ht & ->)].
  - left. split; [done|]. unfold fieldName, replace_whitespace.
    by rewrite replace_runs_boundary.
  - right. exists lead, w, rest, trail. split_and!; try done.
    by apply replace_runs_header.
Qed.

(** The header of the example, taken apart. *)
Lemma fieldName_Full_Name :
  well_spaced "Full" [(" ", "Name")]
  /\ fieldName (phrase "Full" [(" ", "Name")])
     = "full" +:+ "_" +:+ "name".
Proof.
  assert (well_spaced "Full" [(" ", "Name")]) as Hwell.
  { split; [by split|]. constructor; [|constructor].
    split; by split. }
  split; [exact Hwell|].
  pose proof (replace_runs_header EmptyString "Full" [(" ", "Name")]
                EmptyString eq_refl Hwell eq_refl) as E.
  rewrite app_empty_l in E. simpl in E. rewrite app_empty_r in E.
  exact E.
Qed.

(** ** The fields of a lead object *)

Section Mapper.

Lemma own_set_prop_ne k k' v o :
  k <> k' -> own (set_prop k' v o) !! k = own o !! k.
Proof.
  intros Hne. unfold set_prop.
  repeat case_match; simpl; try done; by rewrite lookup_insert_ne.
Qed.

Lemma own_set_prop_eq k v o :
  k <> "__proto__" -> own (set_prop k v o) !! k = Some v.
Proof.
  intros Hne. unfold set_prop.
  destruct (decide (k = "__proto__")); [done|].
  simpl. by rewrite lookup_insert_eq.
Qed.

Lemma dom_set_prop k v o :
  k <> "__proto__" -> dom (own (set_prop k v o)) = {[k]} ∪ dom (own o).
Proof.
  intros Hne. unfold set_prop.
  destruct (decide (k = "__proto__")); [done|].
  simpl. by rewrite dom_insert_L.
Qed.

(** A key that no header normalises to is left as it was. *)
Lemma own_forEach_header_other k index headers row o :
  k ∉ fieldName <$> headers ->
  own (forEach_header index headers row o) !! k = own o !! k.
Proof.
  revert index o.
  induction headers as [|h headers IH]; intros index o Hk; simpl; [done|].
  rewrite fmap_cons in Hk. apply not_elem_of_cons in Hk as [Hne Hk].
  rewrite IH by done. by apply own_set_prop_ne.
Qed.

(** The last header position of a name decides the value of its key. *)
Lemma own_forEach_header_last index headers row o i h :
  headers !! i = Some h ->
  (forall j h', (i < j)%nat -> headers !! j = Some h' ->
                fieldName h' <> fieldName h) ->
  fieldName h <> "__proto__" ->
  own (forEach_header index headers row o) !! fieldName h
  = Some (cell row (index + i)).
Proof.
  revert index o i.
  induction headers as [|h0 headers IH]; intros index o i Hi Hlast Hproto;
    [done|].
  destruct i as [|i]; simpl in *.
  - injection Hi as ->.
    rewrite own_forEach_header_other.
    + rewrite Nat.add_0_r. by apply own_set_prop_eq.
    + intros (h' & Heq & [j Hj]%list_elem_of_lookup)%list_elem_of_fmap.
      apply (Hlast (S j) h'); [lia | done | done].
  - replace (index + S i)%nat with (S index + i)%nat by lia.
    apply IH; [done | | done].
    intros j h' Hj Hh'. apply (Hlast (S j) h'); [lia | done].
Qed.

Lemma dom_forEach_header index headers row o :
  "__proto__" ∉ fieldName <$> headers ->
  dom (own (forEach_header index headers row o))
  = dom (own o) ∪ list_to_set (fieldName <$> headers).
Proof.
  revert index o.
  induction headers as [|h headers IH]; intros index o Hp; simpl.
  - by rewrite (right_id_L ∅ (∪)).
  - rewrite fmap_cons in Hp. apply not_elem_of_cons in Hp as [Hne Hp].
    rewrite IH by done. rewrite dom_set_prop by done.
    rewrite (comm_L (∪) {[fieldName h]} (dom (own o))).
    by rewrite (assoc_L (∪)).
Qed.

End Mapper.

(** C6, as the code has it.  For every header row H with no name normalising
    to [__proto__] and every data row R with |R| <= |H|, the record's keys are
    the normalised names of H together with [sheet_row_id] and [last_sync];
    a header position i whose normalised name does not occur again at a later
    position gives its key the value R[i], and null at or beyond len(R). *)
Theorem mapSheetRowToLeadObject_fields
    (stamp : string) (H R : list string) (rowIndex : Z) :
  (List.length R <= List.length H)%nat ->
  "__proto__" ∉ fieldName <$> H ->
  let lead := mapSheetRowToLeadObject_at stamp H R rowIndex in
  dom (own lead)
  = {["sheet_row_id"; "last_sync"]} ∪ list_to_set (fieldName <$> H)
  /\ forall (i : nat) (h : string),
       H !! i = Some h ->
       (forall j h', (i < j)%nat -> H !! j = Some h' ->
                     fieldName h' <> fieldName h) ->
       own lead !! fieldName h
       = Some (match R !! i with Some v => JStr v | None => JNull end).
Proof.
  intros _ Hproto lead. split.
  - unfold lead, mapSheetRowToLeadObject_at.
    rewrite dom_forEach_header by done. simpl.
    rewrite !dom_insert_L, dom_empty_L. set_solver.
  - intros i h Hi Hlast.
    unfold lead, mapSheetRowToLeadObject_at.
    rewrite (own_forEach_header_last 0 H R _ i h Hi Hlast).
    + reflexivity.
    + intros Heq. apply Hproto. rewrite <- Heq.
      apply list_elem_of_fmap. exists h. split; [done|].
      by apply list_elem_of_lookup_2 with i.
Qed.

Lemma mapSheetRowToLeadObject_fields_witness :
  let lead := mapSheetRowToLeadObject_at "t" ["Full Name"; "Email"] ["Ann"] 2 in
  dom (own lead)
  = {["sheet_row_id"; "last_sync"]} ∪ list_to_set ["full_name"; "email"]
  /\ own lead !! "full_name" = Some (JStr "Ann")
  /\ own lead !! "email" = Some JNull.
Proof.
  assert ((List.length ["Ann"] <= List.length ["Full Name"; "Email"])%nat)
    as Hlen by (simpl; lia).
  assert ("__proto__" ∉ fieldName <$> ["Full Name"; "Email"]) as Hproto.
  { intros Hin. apply list_elem_of_In in Hin. simpl in Hin.
    destruct Hin as [Hin | [Hin | []]]; vm_compute in Hin; congruence. }
  destruct (mapSheetRowToLeadObject_fields "t" ["Full Name"; "Email"] ["Ann"] 2
              Hlen Hproto) as [Hdom Hval].
  split; [exact Hdom|]. split.
  - apply (Hval 0%nat "Full Name"); [reflexivity|].
    intros j h' Hj Hh'. destruct j as [|[|j]]; [lia | | ]; simpl in Hh'.
    + assert (h' = "Email") as -> by congruence. vm_compute. congruence.
    + destruct j; simpl in Hh'; congruence.
  - apply (Hval 1%nat "Email"); [reflexivity|].
    intros j h' Hj Hh'. destruct j as [|[|j]]; [lia | lia | ]; simpl in Hh'.
    destruct j; simpl in Hh'; congruence.
Defined.

(** C6, as stated, fails when two header cells normalise to the same name:
    with H = ["Name"; "name"] and R = ["x"; "y"], position 0 has the key
    [name], whose value is R[1] = "y" and not R[0] = "x". *)
Lemma mapSheetRowToLeadObject_duplicate_names :
  let H := ["Name"; "name"] in
  let R := ["x"; "y"] in
  (List.length R <= List.length H)%nat
  /\ H !! 0%nat = Some "Name"
  /\ R !! 0%nat = Some "x"
  /\ own (mapSheetRowToLeadObject_at "t" H R 2) !! fieldName "Name"
     = Some (JStr "y")
  /\ Some (JStr "y") <> (JStr <$> R !! 0%nat).
Proof.
  simpl. split; [lia|]. split; [done|]. split; [done|].
  split; [vm_compute; reflexivity | discriminate].
Qed.

(** ** Running a pass *)

Section Runs.

Context (env : Env).

Lemma mapM_rows rows w :
  mapM (fun r => mapSheetRowToLeadObject env (headerRow r) (dataRow r)
                   (rowIndex r)) rows w
  = (Normal (stamp_rows env (tick w) rows),
     mkWorld (tick w + List.length rows) (table w) (upserts w) (trace w)).
Proof.
  revert w. induction rows as [|r rows IH]; intros w.
  - destruct w; unfold stamp_rows; simpl. unfold mret, M_ret.
    by rewrite Nat.add_0_r.
  - simpl. unfold mbind, M_bind, mapSheetRowToLeadObject, now at 1. simpl.
    unfold mbind, M_bind, mret, M_ret in *. simpl.
    rewrite IH. simpl. unfold stamp_rows. simpl.
    rewrite Nat.add_0_r. f_equal; [f_equal; f_equal | f_equal; lia].
    apply imap_ext. intros i x _. simpl. do 2 f_equal. lia.
Qed.

Lemma submitted_app tr tr' :
  submitted (tr ++ tr') = submitted tr ++ submitted tr'.
Proof. apply omap_app. Qed.

Lemma add_events_nil w : add_events [] w = w.
Proof. destruct w; unfold add_events; simpl. by rewrite app_nil_r. Qed.

Lemma add_events_app evs evs' w :
  add_events evs' (add_events evs w) = add_events (evs ++ evs') w.
Proof. unfold add_events; simpl. by rewrite app_assoc. Qed.

(** The reader touches nothing but the trace, and what it does depends on
    the environment only. *)
Lemma fetch_batches_frame fuel name b H total s acc :
  exists c evs,
    submitted evs = [] /\
    forall w,
      fetch_batches env fuel name b H total s acc w = (c, add_events evs w).
Proof.
  revert s acc. induction fuel as [|fuel IH]; intros s acc; simpl.
  - destruct (s <? total)%Z.
    + exists OutOfFuel, []. split; [done|].
      intros w. by rewrite add_events_nil.
    + exists (Normal acc), []. split; [done|].
      intros w. unfold mret, M_ret. by rewrite add_events_nil.
  - destruct (s <? total)%Z.
    2:{ exists (Normal acc), []. split; [done|].
        intros w. unfold mret, M_ret. by rewrite add_events_nil. }
    set (range := mkRange name s (Z.min (s + b - 1) total)).
    unfold mbind, M_bind, log_event. simpl.
    destruct (values_get env range) as [values|e]; simpl.
    + destruct (List.length (default [] values) =? 0)%nat.
      * exists (Normal acc), [ValuesGet range]. split; [done|].
        intros w. reflexivity.
      * destruct (IH (s + b) (push_rows H s (default [] values) acc))
          as (c & evs & Hsub & Hrun).
        exists c, (ValuesGet range :: evs). split; [done|].
        intros w. rewrite Hrun. unfold add_events; simpl.
        by rewrite <- app_assoc.
    + exists (Throw e), [ValuesGet range]. split; [done|].
      intros w. reflexivity.
Qed.

(** A [catch] that only rethrows changes nothing. *)
Lemma try_catch_rethrow {A} (body : M A) w :
  try_catch body (fun error => throw error) w = body w.
Proof. unfold try_catch, throw. by destruct (body w) as [[]]. Qed.

(** Once the header and the row count are read, the reader is its loop. *)
Lemma fetchSheetData_loop fuel name b H more sheets props w :
  values_get env (mkRange name 1 1) = Resolved (Some (H :: more)) ->
  spreadsheets_get env name = Resolved sheets ->
  find (fun s => String.eqb (title s) name) sheets = Some props ->
  fetchSheetData env fuel (Some name) (Some b) w
  = fetch_batches env fuel name b H (rowCount props) 2 []
      (add_events [ValuesGet (mkRange name 1 1); SpreadsheetsGet name] w).
Proof.
  intros Hhdr Hmeta Hfind. unfold fetchSheetData.
  rewrite try_catch_rethrow. simpl.
  unfold mbind, M_bind, log_event. simpl.
  rewrite Hhdr. simpl. rewrite Hmeta. simpl. rewrite Hfind. simpl.
  unfold add_events. simpl. by rewrite <- app_assoc.
Qed.

Lemma fetchSheetData_frame fuel name b :
  exists c evs,
    submitted evs = [] /\
    forall w, fetchSheetData env fuel name b w = (c, add_events evs w).
Proof.
  unfold fetchSheetData.
  set (sheetName := default "Sheet1" name).
  set (batchSize := default 50 b).
  setoid_rewrite try_catch_rethrow.
  unfold mbind, M_bind, log_event. simpl.
  set (hdr := ValuesGet (mkRange sheetName 1 1)).
  set (meta := SpreadsheetsGet sheetName).
  destruct (values_get env (mkRange sheetName 1 1)) as [[[|H more]|]|e];
    simpl.
  - exists (Throw no_header), [hdr]. split; [done|]. intros w. reflexivity.
  - destruct (spreadsheets_get env sheetName) as [sheets|e]; simpl.
    + destruct (find _ sheets) as [props|]; simpl.
      * destruct (fetch_batches_frame fuel sheetName batchSize H
                    (rowCount props) 2 []) as (c & evs & Hsub & Hrun).
        exists c, ([hdr; meta] ++ evs).
        split; [done|].
        intros w. rewrite Hrun. rewrite <- add_events_app.
        unfold add_events at 2 3; simpl. by rewrite <- app_assoc.
      * exists (Throw sheet_undefined), [hdr; meta]. split; [done|].
        intros w. unfold add_events; simpl. by rewrite <- app_assoc.
    + exists (Throw e), [hdr; meta]. split; [done|]. intros w.
      unfold add_events; simpl. by rewrite <- app_assoc.
  - exists (Throw values_undefined), [hdr]. split; [done|].
    intros w. reflexivity.
  - exists (Throw e), [hdr]. split; [done|]. intros w. reflexivity.
Qed.

(** The [catch] block: the callback is called, nothing else is touched, and
    a callback that returns lets the failure result out. *)
Lemma trace_fail onError start e w :
  trace (fail env onError start e w).2 = trace w ++ [OnError e].
Proof. unfold fail. by destruct (onError e). Qed.

Lemma table_fail onError start e w :
  table (fail env onError start e w).2 = table w.
Proof. unfold fail. by destruct (onError e). Qed.

Lemma upserts_fail onError start e w :
  upserts (fail env onError start e w).2 = upserts w.
Proof. unfold fail. by destruct (onError e). Qed.

Lemma result_fail onError start e w :
  onError e = Normal tt ->
  (fail env onError start e w).1
  = Normal (Failure start (clock env (tick w)) (message e)).
Proof. unfold fail. by intros ->. Qed.

Lemma syncSheetsToSupabase_run fuel options w :
  let sheetName := default "Sheet1" (opt_sheetName options) in
  let batchSize := default 50 (opt_batchSize options) in
  let onError := default (fun _ => Normal tt) (opt_onError options) in
  let read :=
    fetchSheetData env fuel (Some sheetName) (Some batchSize)
      (mkWorld (S (tick w)) (table w) (upserts w) (trace w)) in
  syncSheetsToSupabase env fuel options w
  = finish env onError (clock env (tick w)) read.1 read.2.
Proof.
  intros sheetName batchSize onError read.
  unfold syncSheetsToSupabase.
  fold sheetName batchSize onError.
  unfold mbind at 1. unfold M_bind at 1. unfold now at 1. simpl.
  unfold try_catch at 1. unfold mbind at 1. unfold M_bind at 1.
  fold read. destruct read as [[rows|e|] w2]; simpl.
  - unfold mbind at 1. unfold M_bind at 1. rewrite mapM_rows.
    unfold mbind, M_bind, writeLeadsToSupabase, try_catch, throw. simpl.
    destruct (upsert_error env (upserts w2)) as [e|]; simpl.
    + unfold fail, call_onError, mbind, M_bind, log_event. simpl.
      destruct (onError e) as [[]| |]; reflexivity.
    + reflexivity.
  - unfold fail, call_onError, mbind, M_bind, log_event. simpl.
    destruct (onError e) as [[]| |]; reflexivity.
  - reflexivity.
Qed.

End Runs.

(** ** The option [forceFullSync] *)

(** C9. The flag [forceFullSync] is read from the options and never used: for
    every environment, world and choice of the other options, two passes that
    differ in the flag only return the same result, make the same reads,
    submit the same records and leave the same world. *)
Theorem forceFullSync_not_consumed
    (env : Env) (fuel : nat) (name : option string) (b : option Z)
    (flag flag' : option bool) (cb : option (JsError -> Completion unit))
    (w : World) :
  let pass := syncSheetsToSupabase env fuel (mkOptions name b flag cb) w in
  let pass' := syncSheetsToSupabase env fuel (mkOptions name b flag' cb) w in
  pass.1 = pass'.1
  /\ reads (trace pass.2) = reads (trace pass'.2)
  /\ submitted (trace pass.2) = submitted (trace pass'.2)
  /\ pass.2 = pass'.2.
Proof.
  intros pass pass'.
  assert (pass = pass') as -> by reflexivity.
  by split_and!.
Qed.

(** ** Failures of the reader *)

Section ReaderFailures.

Context (env : Env).

Lemma batch_range_0 name b total s :
  batch_range name b total s 0 = mkRange name s (Z.min (s + b - 1) total).
Proof. unfold batch_range. simpl. by rewrite Z.add_0_r. Qed.

Lemma batch_range_S name b total s k :
  batch_range name b total s (S k) = batch_range name b total (s + b) k.
Proof.
  unfold batch_range. simpl.
  replace (s + Z.of_nat (S k) * b) with (s + b + Z.of_nat k * b) by lia.
  reflexivity.
Qed.

(** When the first [N] batches come back with rows and batch [N] is
    rejected, the loop raises the rejection. *)
Lemma fetch_batches_rejected (N : nat) fuel name b H total s acc e w :
  0 < b ->
  (forall k, (k < N)%nat ->
     exists rows, values_get env (batch_range name b total s k)
                  = Resolved (Some rows) /\ rows <> []) ->
  s + Z.of_nat N * b < total ->
  values_get env (batch_range name b total s N) = Rejected e ->
  (N < fuel)%nat ->
  (fetch_batches env fuel name b H total s acc w).1 = Throw e.
Proof.
  intros Hb. revert fuel s acc w.
  induction N as [|N IH]; intros fuel s acc w Hok Hlt Hrej Hfuel;
    (destruct fuel as [|fuel]; [lia|]); simpl.
  - rewrite batch_range_0 in Hrej.
    assert ((s <? total)%Z = true) as -> by (apply Z.ltb_lt; lia).
    unfold mbind, M_bind, log_event. simpl. by rewrite Hrej.
  - assert ((s <? total)%Z = true) as -> by (apply Z.ltb_lt; lia).
    destruct (Hok 0%nat ltac:(lia)) as (rows & Hrows & Hne).
    rewrite batch_range_0 in Hrows.
    unfold mbind, M_bind, log_event. simpl. rewrite Hrows. simpl.
    destruct rows as [|row rows]; [done|]. simpl.
    apply IH.
    + intros k Hk. rewrite <- batch_range_S. apply Hok. lia.
    + lia.
    + by rewrite <- batch_range_S.
    + lia.
Qed.

End ReaderFailures.

(** C3, corrected. If a ranged data read raises after [N] batches have
    succeeded, the pass sends no bulk write and leaves the table as it was
    (the rows collected so far are dropped), whatever the callback does; and
    when the caller's callback returns on the raised error, as the default
    one does, the pass returns the failure result
    [{success: false, syncStartTime, syncEndTime, error}] with the message of
    that error, which then does not leave [syncSheetsToSupabase].  Without
    the condition on the callback the last part fails, as shown below. *)
Theorem failed_read_writes_nothing
    (env : Env) (fuel : nat) (options : Options) (w : World)
    (H : list string) (more : list (list string))
    (sheets : list SheetProperties) (props : SheetProperties)
    (N : nat) (e : JsError) :
  let name := default "Sheet1" (opt_sheetName options) in
  let b := default 50 (opt_batchSize options) in
  let onError := default (fun _ => Normal tt) (opt_onError options) in
  0 < b ->
  values_get env (mkRange name 1 1) = Resolved (Some (H :: more)) ->
  spreadsheets_get env name = Resolved sheets ->
  find (fun s => String.eqb (title s) name) sheets = Some props ->
  (forall k, (k < N)%nat ->
     exists rows, values_get env (batch_range name b (rowCount props) 2 k)
                  = Resolved (Some rows) /\ rows <> []) ->
  2 + Z.of_nat N * b < rowCount props ->
  values_get env (batch_range name b (rowCount props) 2 N) = Rejected e ->
  (N < fuel)%nat ->
  let pass := syncSheetsToSupabase env fuel options w in
  submitted (trace pass.2) = submitted (trace w)
  /\ upserts pass.2 = upserts w
  /\ table pass.2 = table w
  /\ (onError e = Normal tt ->
      pass.1 = Normal (Failure (clock env (tick w)) (clock env (S (tick w)))
                               (message e))).
Proof.
  intros name b onError Hb Hhdr Hmeta Hfind Hok Hlt Hrej Hfuel pass.
  unfold pass. rewrite syncSheetsToSupabase_run.
  fold name b onError.
  set (w1 := mkWorld (S (tick w)) (table w) (upserts w) (trace w)).
  destruct (fetchSheetData_frame env fuel (Some name) (Some b))
    as (c & evs & Hsub & Hrun).
  assert (c = Throw e) as ->.
  { pose proof (fetch_batches_rejected env N fuel name b H (rowCount props) 2 []
                  e (add_events [ValuesGet (mkRange name 1 1);
                                 SpreadsheetsGet name] w1)
                  Hb Hok Hlt Hrej Hfuel) as Hthrow.
    rewrite <- (fetchSheetData_loop env fuel name b H more sheets props w1)
      in Hthrow by done.
    rewrite Hrun in Hthrow. exact Hthrow. }
  rewrite Hrun. simpl.
  rewrite trace_fail, table_fail, upserts_fail. simpl.
  split_and!; try done.
  - rewrite !submitted_app, Hsub. simpl. by rewrite !app_nil_r.
  - intros Hcb. by rewrite result_fail.
Qed.

(** C8, corrected. If the header range read yields no rows (no [values]
    field, or an empty one), the pass makes no call after the header read
    other than the callback, so no data read and no bulk write, whatever the
    callback does; and when the callback returns, as the default one does,
    the pass returns a failure result.  Without the condition on the
    callback the last part fails, as shown below. *)
Theorem missing_header_fails_fast
    (env : Env) (fuel : nat) (options : Options) (w : World) :
  let name := default "Sheet1" (opt_sheetName options) in
  let onError := default (fun _ => Normal tt) (opt_onError options) in
  values_get env (mkRange name 1 1) = Resolved None
  \/ values_get env (mkRange name 1 1) = Resolved (Some []) ->
  let pass := syncSheetsToSupabase env fuel options w in
  exists e,
    trace pass.2 = trace w ++ [ValuesGet (mkRange name 1 1); OnError e]
    /\ upserts pass.2 = upserts w
    /\ table pass.2 = table w
    /\ (onError e = Normal tt ->
        exists r, pass.1 = Normal r /\ success r = false).
Proof.
  intros name onError Hhdr pass.
  unfold pass. rewrite syncSheetsToSupabase_run. fold name onError.
  unfold fetchSheetData. rewrite try_catch_rethrow. simpl.
  unfold mbind, M_bind, log_event. simpl.
  destruct Hhdr as [-> | ->]; simpl;
    [exists values_undefined | exists no_header];
    rewrite trace_fail, table_fail, upserts_fail; simpl;
    (split_and!; [by rewrite <- app_assoc | done | done |]);
    intros Hcb; rewrite result_fail by done; by eauto.
Qed.

Lemma failed_read_writes_nothing_witness :
  let pass :=
    syncSheetsToSupabase Stub.env 5 (Example.options 1) initial_world in
  submitted (trace pass.2) = []
  /\ upserts pass.2 = 0%nat
  /\ table pass.2 = []
  /\ pass.1 = Normal (Failure (Example.clk 0) (Example.clk 1) "Quota exceeded").
Proof.
  destruct (failed_read_writes_nothing Stub.env 5 (Example.options 1)
              initial_world ["Name"; "Email"] [] [mkProps "Sheet1" 10]
              (mkProps "Sheet1" 10) 1 Stub.quota)
    as (Hsent & Hcount & Htable & Hresult).
  - simpl. lia.
  - reflexivity.
  - reflexivity.
  - reflexivity.
  - intros k Hk. assert (k = 0%nat) as -> by lia.
    exists [["Alice"; "a@x.com"]]. split; [reflexivity | congruence].
  - simpl. lia.
  - reflexivity.
  - lia.
  - split; [exact Hsent|]. split; [exact Hcount|]. split; [exact Htable|].
    apply Hresult. reflexivity.
Defined.

Lemma missing_header_fails_fast_witness :
  let pass :=
    syncSheetsToSupabase Stub.empty_env 5 (Example.options 1) initial_world in
  exists e,
    trace pass.2 = [] ++ [ValuesGet (mkRange "Sheet1" 1 1); OnError e]
    /\ upserts pass.2 = 0%nat
    /\ table pass.2 = []
    /\ exists r, pass.1 = Normal r /\ success r = false.
Proof.
  destruct (missing_header_fails_fast Stub.empty_env 5 (Example.options 1)
              initial_world) as (e & Htrace & Hcount & Htable & Hresult).
  - left. reflexivity.
  - exists e. split; [exact Htrace|]. split; [exact Hcount|].
    split; [exact Htable|]. apply Hresult. reflexivity.
Defined.

(** C3, as the claim has it, fails: the callback of the pass is called
    inside the [catch] block without a guard, so a callback that raises
    makes the pass raise.  Over the stub that rejects the read of row 3,
    with batch size 1, batch 0 succeeds and batch 1 is rejected; with a
    callback that raises what it is given, the pass writes nothing and ends
    by raising the rejection: no failure result is returned, the error
    leaves [syncSheetsToSupabase]. *)
Lemma failed_read_error_escapes :
  let options := Endless.rethrow_in_batches 1 in
  let pass := syncSheetsToSupabase Stub.env 5 options initial_world in
  values_get Stub.env (batch_range "Sheet1" 1 10 2 0)
  = Resolved (Some [["Alice"; "a@x.com"]])
  /\ values_get Stub.env (batch_range "Sheet1" 1 10 2 1) = Rejected Stub.quota
  /\ pass.1 = Throw Stub.quota
  /\ (~ exists r, pass.1 = Normal r)
  /\ submitted (trace pass.2) = []
  /\ table pass.2 = [].
Proof.
  intros options pass.
  assert (pass.1 = Throw Stub.quota) as Hthrow by by_running.
  split_and!; [reflexivity | reflexivity | done | | by_running | by_running].
  intros [r Hr]. rewrite Hthrow in Hr. discriminate.
Qed.

(** C8, as the claim has it, fails for the same reason: over a sheet
    without any row the header read yields no [values]; with a callback
    that raises what it is given, the pass ends by raising the [TypeError]
    of reading [values[0]], and returns no [{success: false}]. *)
Lemma missing_header_error_escapes :
  let pass :=
    syncSheetsToSupabase Stub.empty_env 5 Endless.rethrow initial_world in
  values_get Stub.empty_env (mkRange "Sheet1" 1 1) = Resolved None
  /\ pass.1 = Throw values_undefined
  /\ (~ exists r, pass.1 = Normal r /\ success r = false)
  /\ submitted (trace pass.2) = []
  /\ table pass.2 = [].
Proof.
  intros pass.
  assert (pass.1 = Throw values_undefined) as Hthrow by by_running.
  split_and!; [reflexivity | done | | by_running | by_running].
  intros (r & Hr & _). rewrite Hthrow in Hr. discriminate.
Qed.

(** ** The worked example *)

(** C1, at the input of the claim.  With the declared row count 3 and batch
    size 1, the loop guard [startRow < totalRows] ends the loop before row
    3 is asked for: one ranged data read is made, and the only record is
    the one of row 2. *)
Theorem example_batch1_declared3 (fuel : nat) :
  let pass :=
    syncSheetsToSupabase (Example.env 3) (S fuel) (Example.options 1)
      initial_world in
  pass.1 = Normal (Success (Example.clk 0) (Example.clk 2) 1)
  /\ reads (trace pass.2) = [mkRange "Sheet1" 1 1; mkRange "Sheet1" 2 2]
  /\ (fields_of <$> submitted (trace pass.2))
     = [[Example.alice (Example.clk 1)]]
  /\ table pass.2 = [Example.alice (Example.clk 1)].
Proof. destruct fuel; by_running. Qed.

(** The same sheet with one spare grid row (declared row count 4) gives the
    two records the example expects. *)
Lemma example_batch1_declared4 (fuel : nat) :
  let pass :=
    syncSheetsToSupabase (Example.env 4) (S (S fuel)) (Example.options 1)
      initial_world in
  pass.1 = Normal (Success (Example.clk 0) (Example.clk 3) 2)
  /\ (fields_of <$> submitted (trace pass.2))
     = [[Example.alice (Example.clk 1); Example.bob (Example.clk 2)]].
Proof. destruct fuel; by_running. Qed.

(** ** What the reader returns *)

Section ReaderResults.

Context (env : Env).

(** A reader that returns has read a header row and the row count, and
    then ran its loop. *)
Lemma fetchSheetData_inv fuel name b w rows w' :
  fetchSheetData env fuel (Some name) (Some b) w = (Normal rows, w') ->
  exists H more sheets props,
    values_get env (mkRange name 1 1) = Resolved (Some (H :: more))
    /\ spreadsheets_get env name = Resolved sheets
    /\ find (fun s => String.eqb (title s) name) sheets = Some props
    /\ fetch_batches env fuel name b H (rowCount props) 2 []
         (add_events [ValuesGet (mkRange name 1 1); SpreadsheetsGet name] w)
       = (Normal rows, w').
Proof.
  intros Hrun.
  destruct (values_get env (mkRange name 1 1)) as [[[|H more]|]|e] eqn:Hhdr;
    try (unfold fetchSheetData in Hrun; rewrite try_catch_rethrow in Hrun;
         simpl in Hrun; unfold mbind, M_bind, log_event in Hrun;
         simpl in Hrun; rewrite Hhdr in Hrun; simpl in Hrun; congruence).
  destruct (spreadsheets_get env name) as [sheets|e] eqn:Hmeta;
    [|unfold fetchSheetData in Hrun; rewrite try_catch_rethrow in Hrun;
      simpl in Hrun; unfold mbind, M_bind, log_event in Hrun;
      simpl in Hrun; rewrite Hhdr in Hrun; simpl in Hrun;
      rewrite Hmeta in Hrun; simpl in Hrun; congruence].
  destruct (find (fun s => String.eqb (title s) name) sheets)
    as [props|] eqn:Hfind;
    [|unfold fetchSheetData in Hrun; rewrite try_catch_rethrow in Hrun;
      simpl in Hrun; unfold mbind, M_bind, log_event in Hrun;
      simpl in Hrun; rewrite Hhdr in Hrun; simpl in Hrun;
      rewrite Hmeta in Hrun; simpl in Hrun; rewrite Hfind in Hrun;
      simpl in Hrun; congruence].
  exists H, more, sheets, props. repeat split; try done.
  by rewrite <- (fetchSheetData_loop env fuel name b H more sheets props w).
Qed.

(** Every collected row carries the header row of the pass. *)
Lemma fetch_batches_headers fuel name b H total s acc w rows w' :
  fetch_batches env fuel name b H total s acc w = (Normal rows, w') ->
  Forall (fun r => headerRow r = H) acc ->
  Forall (fun r => headerRow r = H) rows.
Proof.
  revert s acc w.
  induction fuel as [|fuel IH]; intros s acc w Hrun Hacc; simpl in Hrun.
  - destruct (s <? total)%Z; [congruence|].
    unfold mret, M_ret in Hrun. congruence.
  - destruct (s <? total)%Z;
      [|unfold mret, M_ret in Hrun; congruence].
    unfold mbind, M_bind, log_event in Hrun. simpl in Hrun.
    destruct (values_get env _) as [values|e]; simpl in Hrun; [|congruence].
    destruct (List.length (default [] values) =? 0)%nat.
    + unfold mret, M_ret in Hrun. congruence.
    + apply IH in Hrun; [done|].
      unfold push_rows. apply Forall_app. split; [done|].
      apply Forall_forall. intros r Hr.
      apply list_elem_of_lookup in Hr as [i Hi].
      rewrite list_lookup_imap in Hi.
      destruct (default [] values !! i); simpl in Hi; [|done].
      by injection Hi as <-.
Qed.

End ReaderResults.

(** ** The payload of a pass *)

Section Payload.

Context (env : Env).

(** A pass that sends a payload has read a header row and the row count;
    the payload is made of the rows its loop collected, each mapped at its
    own clock reading, the first one right after [syncStartTime]. *)
Lemma submitted_of_pass fuel options w leads :
  let name := default "Sheet1" (opt_sheetName options) in
  let b := default 50 (opt_batchSize options) in
  submitted (trace (syncSheetsToSupabase env fuel options (fresh_trace w)).2)
  = [leads] ->
  exists H more sheets props rows w1 w2,
    values_get env (mkRange name 1 1) = Resolved (Some (H :: more))
    /\ spreadsheets_get env name = Resolved sheets
    /\ find (fun s => String.eqb (title s) name) sheets = Some props
    /\ fetch_batches env fuel name b H (rowCount props) 2 [] w1
       = (Normal rows, w2)
    /\ leads = stamp_rows env (S (tick w)) rows.
Proof.
  intros name b Hsent.
  rewrite syncSheetsToSupabase_run in Hsent. fold name b in Hsent.
  set (onError := default (fun _ => Normal tt) (opt_onError options)) in *.
  set (w1 := mkWorld _ _ _ _) in *.
  destruct (fetchSheetData_frame env fuel (Some name) (Some b))
    as (c & evs & Hsub & Hrun).
  pose proof (Hrun w1) as Hrun1. rewrite Hrun1 in Hsent. simpl in Hsent.
  destruct c as [rows|e|]; simpl in Hsent.
  - apply fetchSheetData_inv in Hrun1
      as (H & more & sheets & props & Hhdr & Hmeta & Hfind & Hloop).
    exists H, more, sheets, props, rows. do 2 eexists.
    repeat split; try done.
    destruct (upsert_error env (upserts w)) as [e|]; simpl in Hsent.
    + rewrite trace_fail in Hsent. simpl in Hsent.
      rewrite ?submitted_app, Hsub in Hsent. simpl in Hsent. congruence.
    + rewrite ?submitted_app, Hsub in Hsent. simpl in Hsent. congruence.
  - rewrite trace_fail in Hsent. simpl in Hsent.
    rewrite ?submitted_app, Hsub in Hsent. simpl in Hsent. congruence.
  - rewrite ?submitted_app, Hsub in Hsent. simpl in Hsent. congruence.
Qed.

(** Every result the pass returns carries the first clock reading. *)
Lemma syncStartTime_of_pass fuel options w r :
  (syncSheetsToSupabase env fuel options w).1 = Normal r ->
  match r with Success start _ _ | Failure start _ _ => start end
  = clock env (tick w).
Proof.
  rewrite syncSheetsToSupabase_run.
  set (onError := default (fun _ => Normal tt) (opt_onError options)).
  assert (forall e w2 r,
             (fail env onError (clock env (tick w)) e w2).1 = Normal r ->
             match r with Success start _ _ | Failure start _ _ => start end
             = clock env (tick w)) as Hfail.
  { intros e w2 r'. unfold fail. destruct (onError e); simpl; [|done..].
    by intros [= <-]. }
  destruct (fetchSheetData _ _ _ _ _) as [[rows|e|] w2]; simpl.
  - destruct (upsert_error env (upserts w2)) as [e|]; [by eauto|].
    simpl. by intros [= <-].
  - by eauto.
  - done.
Qed.

End Payload.

(** ** Timestamps *)

(** C4, as the code has it.  [last_sync] is read from the clock when the
    record is mapped, after the reads: in a pass whose header row has no name
    normalising to [last_sync], the [i]-th record (from 0) carries the
    [(i+1)]-th clock reading after the one that gave [syncStartTime]. *)
Theorem last_sync_is_mapping_time
    (env : Env) (fuel : nat) (options : Options) (w : World)
    (H : list string) (more : list (list string)) (leads : list JsObject) :
  let name := default "Sheet1" (opt_sheetName options) in
  values_get env (mkRange name 1 1) = Resolved (Some (H :: more)) ->
  "last_sync" ∉ fieldName <$> H ->
  let pass := syncSheetsToSupabase env fuel options (fresh_trace w) in
  submitted (trace pass.2) = [leads] ->
  (forall r, pass.1 = Normal r -> syncStartTime r = clock env (tick w))
  /\ forall (i : nat) (lead : JsObject),
       leads !! i = Some lead ->
       last_sync lead = Some (JStr (clock env (S (tick w) + i))).
Proof.
  intros name Hhdr Hfree pass Hsent. split.
  - intros r Hr. by apply (syncStartTime_of_pass env fuel options _ r) in Hr.
  - apply submitted_of_pass in Hsent
      as (H' & more' & sheets & props & rows & w1 & w2
          & Hhdr' & _ & _ & Hloop & ->).
    fold name in Hhdr'. assert (H' = H) as -> by congruence.
    intros i lead Hlead. unfold stamp_rows in Hlead.
    rewrite list_lookup_imap in Hlead.
    destruct (rows !! i) as [r|] eqn:Hr; simpl in Hlead; [|done].
    injection Hlead as <-.
    apply fetch_batches_headers in Hloop; [|constructor].
    rewrite Forall_forall in Hloop.
    assert (headerRow r = H) as Hrow
      by (apply Hloop; by apply list_elem_of_lookup_2 with i).
    unfold last_sync, mapSheetRowToLeadObject_at.
    rewrite own_forEach_header_other by by rewrite Hrow.
    simpl. by rewrite lookup_insert_eq.
Qed.

Lemma last_sync_is_mapping_time_witness :
  let pass :=
    syncSheetsToSupabase (Example.env 1000) 5 (Example.options 50)
      (fresh_trace initial_world) in
  submitted (trace pass.2)
  = [[Example.lead (Example.clk 1) ["Alice"; "a@x.com"] 2;
      Example.lead (Example.clk 2) ["Bob"; "b@x.com"] 3]]
  /\ last_sync (Example.lead (Example.clk 2) ["Bob"; "b@x.com"] 3)
     = Some (JStr (Example.clk 2)).
Proof.
  assert (submitted
            (trace (syncSheetsToSupabase (Example.env 1000) 5
                      (Example.options 50) (fresh_trace initial_world)).2)
          = [[Example.lead (Example.clk 1) ["Alice"; "a@x.com"] 2;
              Example.lead (Example.clk 2) ["Bob"; "b@x.com"] 3]])
    as Hsent by by_running.
  split; [exact Hsent|].
  refine (proj2 (last_sync_is_mapping_time (Example.env 1000) 5
                   (Example.options 50) initial_world
                   ["Name"; "Email"] [] _ _ _ Hsent) 1%nat _ _).
  - reflexivity.
  - apply (bool_decide_unpack _). vm_compute. exact I.
  - reflexivity.
Defined.

(** C4, as stated, fails as soon as the clock moves during the pass: over
    the sheet of the worked example, with a clock that advances by a second
    per reading, [syncStartTime] is the reading of second 0 while the two
    records carry the readings of seconds 1 and 2. *)
Lemma last_sync_differs_from_syncStartTime :
  let pass :=
    syncSheetsToSupabase (Example.env 1000) 5 (Example.options 50)
      initial_world in
  pass.1 = Normal (Success "2026-01-01T00:00:00.000Z"
                           "2026-01-01T00:00:03.000Z" 2)
  /\ (Example.stamps <$> submitted (trace pass.2))
     = [[Some (JStr "2026-01-01T00:00:01.000Z");
         Some (JStr "2026-01-01T00:00:02.000Z")]].
Proof. by_running. Qed.

(** ** Row identifiers *)

Section Ascending.

Context (env : Env).

Lemma rowIndex_push_rows H s rows acc :
  rowIndex <$> push_rows H s rows acc
  = (rowIndex <$> acc) ++ imap (fun i _ => s + Z.of_nat i) rows.
Proof. unfold push_rows. by rewrite fmap_app, fmap_imap. Qed.

Lemma elem_of_offsets {A} (rows : list A) s x :
  x ∈ imap (fun i _ => s + Z.of_nat i) rows ->
  s <= x < s + Z.of_nat (List.length rows).
Proof.
  intros (i & y & -> & Hi)%elem_of_lookup_imap_1.
  apply lookup_lt_Some in Hi. lia.
Qed.

Lemma offsets_sorted {A} (rows : list A) s :
  StronglySorted Z.lt (imap (fun i _ => s + Z.of_nat i) rows).
Proof.
  revert s. induction rows as [|row rows IH]; intros s; simpl.
  - constructor.
  - assert (imap ((fun i (_ : A) => s + Z.of_nat i) ∘ S) rows
            = imap (fun i _ => (s + 1) + Z.of_nat i) rows) as ->.
    { apply imap_ext. intros i x _. simpl. lia. }
    constructor; [apply IH|].
    apply Forall_forall. intros x Hx%elem_of_offsets. lia.
Qed.

(** The loop keeps the collected row numbers in strictly ascending order:
    a batch that starts at [s] numbers its rows from [s] on and has at most
    [batchSize] of them, and the next batch starts at [s + batchSize]. *)
Lemma fetch_batches_ascending fuel name b H total s acc w rows w' :
  0 < b ->
  bounded_reads env ->
  fetch_batches env fuel name b H total s acc w = (Normal rows, w') ->
  StronglySorted Z.lt (rowIndex <$> acc) ->
  Forall (fun r => rowIndex r < s) acc ->
  StronglySorted Z.lt (rowIndex <$> rows).
Proof.
  intros Hb Hbounded. revert s acc w.
  induction fuel as [|fuel IH]; intros s acc w Hrun Hsorted Hbelow;
    simpl in Hrun.
  - destruct (s <? total)%Z; [congruence|].
    unfold mret, M_ret in Hrun. congruence.
  - destruct (s <? total)%Z; [|unfold mret, M_ret in Hrun; congruence].
    unfold mbind, M_bind, log_event in Hrun. simpl in Hrun.
    destruct (values_get env _) as [values|e] eqn:Hread; simpl in Hrun;
      [|congruence].
    destruct (List.length (default [] values) =? 0)%nat.
    { unfold mret, M_ret in Hrun. congruence. }
    assert (Z.of_nat (List.length (default [] values)) <= b) as Hlen.
    { destruct values as [got|]; simpl; [|lia].
      apply Hbounded in Hread. simpl in Hread. lia. }
    apply IH in Hrun; [done| |].
    + rewrite rowIndex_push_rows. apply StronglySorted_app_2.
      * intros x1 x2 Hx1 Hx2%elem_of_offsets.
        apply list_elem_of_fmap in Hx1 as (r & -> & Hr).
        rewrite Forall_forall in Hbelow. specialize (Hbelow r Hr). lia.
      * done.
      * apply offsets_sorted.
    + unfold push_rows. apply Forall_app. split.
      * eapply Forall_impl; [exact Hbelow|]. simpl. intros r Hr. lia.
      * apply Forall_forall. intros r Hr.
        apply elem_of_lookup_imap_1 in Hr as (i & row & -> & Hi).
        apply lookup_lt_Some in Hi. simpl. lia.
Qed.

Lemma StronglySorted_lt_NoDup (l : list Z) : StronglySorted Z.lt l -> NoDup l.
Proof.
  induction 1 as [|x l _ IH Hall]; constructor; [|done].
  intros Hx. rewrite Forall_forall in Hall. specialize (Hall x Hx). lia.
Qed.

End Ascending.

(** The sheet source keeps to the range it is asked for. *)
Lemma length_trim_blank rows :
  (List.length (Sheets.trim_blank rows) <= List.length rows)%nat.
Proof.
  induction rows as [|row rows IH]; simpl; [lia|].
  destruct (Sheets.trim_blank rows); simpl in *.
  - destruct (Sheets.is_blank row); simpl; lia.
  - lia.
Qed.

Lemma sheet_bounded_reads clk faults sh :
  bounded_reads (Sheets.env_of clk faults sh).
Proof.
  intros r rows. simpl. unfold Sheets.read.
  destruct (_ || _); [done|].
  pose proof (length_trim_blank
                (take 26 <$> Sheets.slice (rg_first r) (rg_last r)
                                (Sheets.sh_rows sh))) as Hlen.
  rewrite length_fmap in Hlen. unfold Sheets.slice in Hlen.
  rewrite length_take in Hlen.
  destruct (Sheets.trim_blank _) as [|row kept] eqn:Hkept; [done|].
  intros [= <-]. simpl in *. lia.
Qed.

(** C10, as the code has it.  In a pass whose header row has no name
    normalising to [sheet_row_id], over a source whose reads keep to their
    range, the [sheet_row_id] values of the submitted records are the
    decimal numerals of strictly ascending row numbers, hence pairwise
    distinct. *)
Theorem sheet_row_ids_ascending
    (env : Env) (fuel : nat) (options : Options) (w : World)
    (H : list string) (more : list (list string)) (leads : list JsObject) :
  let name := default "Sheet1" (opt_sheetName options) in
  let b := default 50 (opt_batchSize options) in
  0 < b ->
  bounded_reads env ->
  values_get env (mkRange name 1 1) = Resolved (Some (H :: more)) ->
  "sheet_row_id" ∉ fieldName <$> H ->
  let pass := syncSheetsToSupabase env fuel options (fresh_trace w) in
  submitted (trace pass.2) = [leads] ->
  (exists rowIndexes : list Z,
      StronglySorted Z.lt rowIndexes
      /\ sheet_row_id <$> leads
         = (fun n : Z => Some (JStr (pretty n))) <$> rowIndexes)
  /\ NoDup (sheet_row_id <$> leads).
Proof.
  intros name b Hb Hbounded Hhdr Hfree pass Hsent.
  apply submitted_of_pass in Hsent
    as (H' & more' & sheets & props & rows & w1 & w2
        & Hhdr' & _ & _ & Hloop & ->).
  fold name in Hhdr'. fold name b in Hloop.
  assert (H' = H) as -> by congruence.
  pose proof (fetch_batches_headers env _ _ _ _ _ _ _ _ _ _ Hloop
                ltac:(constructor)) as Hheaders.
  pose proof (fetch_batches_ascending env _ _ _ _ _ _ _ _ _ _ Hb Hbounded
                Hloop ltac:(constructor) ltac:(constructor)) as Hsorted.
  assert (sheet_row_id <$> stamp_rows env (S (tick w)) rows
          = (fun n : Z => Some (JStr (pretty n))) <$> (rowIndex <$> rows))
    as Hids.
  { unfold stamp_rows. rewrite fmap_imap.
    clear Hloop Hsorted. generalize (S (tick w)) as k.
    induction rows as [|r rows IH]; intros k; simpl; [done|].
    apply Forall_cons in Hheaders as [Hr Hrest]. f_equal.
    - unfold sheet_row_id, mapSheetRowToLeadObject_at.
      rewrite own_forEach_header_other by by rewrite Hr.
      simpl. rewrite lookup_insert_ne by done. by rewrite lookup_insert_eq.
    - etrans; [|apply (IH Hrest (S k))].
      apply imap_ext. intros i x _. simpl.
      by replace (k + S i)%nat with (S (k + i))%nat by lia. }
  split.
  - exists (rowIndex <$> rows). by split.
  - rewrite Hids. apply NoDup_fmap_2.
    + intros x y [= Heq]. by apply (inj pretty) in Heq.
    + by apply StronglySorted_lt_NoDup.
Qed.

Lemma sheet_row_ids_ascending_witness :
  let leads :=
    [Example.lead (Example.clk 1) ["Alice"; "a@x.com"] 2;
     Example.lead (Example.clk 2) ["Bob"; "b@x.com"] 3] in
  (exists rowIndexes : list Z,
      StronglySorted Z.lt rowIndexes
      /\ sheet_row_id <$> leads
         = (fun n : Z => Some (JStr (pretty n))) <$> rowIndexes)
  /\ NoDup (sheet_row_id <$> leads).
Proof.
  apply (sheet_row_ids_ascending (Example.env 1000) 5 (Example.options 50)
           initial_world ["Name"; "Email"] []).
  - simpl. lia.
  - apply sheet_bounded_reads.
  - reflexivity.
  - apply (bool_decide_unpack _). vm_compute. exact I.
  - apply (bool_decide_unpack _). vm_compute. exact I.
Defined.

(** C10, as stated, fails when a header cell normalises to [sheet_row_id]:
    the cell of that column overwrites the row number, and two rows with the
    same cell give two records with the same conflict key. *)
Lemma sheet_row_id_column_collides :
  let pass :=
    syncSheetsToSupabase Collision.env 5 (Example.options 50) initial_world in
  fieldName "Sheet Row ID" = "sheet_row_id"
  /\ (Example.ids <$> submitted (trace pass.2))
     = [[Some (JStr "7"); Some (JStr "7")]]
  /\ ~ NoDup [Some (JStr "7"); Some (JStr "7")].
Proof.
  split; [reflexivity|]. split; [by_running|].
  intros Hnd. apply NoDup_cons in Hnd as [Hnotin _].
  apply Hnotin. by left.
Qed.

(** ** The batch size *)

Section Contiguous.

Context (clk : nat -> string) (faults : nat -> option JsError).
Context (sh : Sheets.Sheet).

Lemma trim_blank_id rows :
  Forall (fun row => Sheets.is_blank row = false) rows ->
  Sheets.trim_blank rows = rows.
Proof.
  induction 1 as [|row rows Hrow _ IH]; simpl; [done|].
  rewrite IH. destruct rows; [by rewrite Hrow | done].
Qed.

(** A read below the header of a contiguous sheet gives the rows of its
    range as they are. *)
Lemma read_contiguous s e :
  contiguous sh -> 2 <= s ->
  Sheets.read sh (mkRange (Sheets.sh_title sh) s e)
  = Resolved
      (match take (Z.to_nat (e - s + 1)) (drop (Z.to_nat (s - 1)) (visible sh)) with
       | [] => None
       | rows => Some rows
       end).
Proof.
  intros Hcont Hs. unfold Sheets.read. simpl.
  rewrite String.eqb_refl. simpl.
  assert ((s <? 1)%Z = false) as -> by (apply Z.ltb_ge; lia).
  unfold Sheets.slice. rewrite fmap_take, fmap_drop. fold (visible sh).
  rewrite trim_blank_id; [by destruct (take _ _)|].
  apply Forall_take.
  replace (Z.to_nat (s - 1)) with (1 + Z.to_nat (s - 2))%nat by lia.
  rewrite <- drop_drop. by apply Forall_drop.
Qed.

Lemma rows_split H (D : list (list string)) (s : Z) (n b : nat) :
  (n <= b)%nat ->
  n = b \/ (List.length D <= n)%nat ->
  imap (fun i row => mkSheetRow H row (s + Z.of_nat i)) (take n D)
  ++ imap (fun i row => mkSheetRow H row (s + Z.of_nat b + Z.of_nat i))
       (drop b D)
  = imap (fun i row => mkSheetRow H row (s + Z.of_nat i)) D.
Proof.
  intros Hnb [-> | Hshort].
  - rewrite <- (take_drop b D) at 3. rewrite imap_app. f_equal.
    destruct (decide (b <= List.length D)%nat) as [Hle | Hgt].
    + apply imap_ext. intros i row _. simpl. rewrite length_take.
      f_equal. lia.
    + by rewrite drop_ge by lia.
  - rewrite take_ge by lia. rewrite drop_ge by lia. simpl.
    by rewrite app_nil_r.
Qed.

(** On a contiguous sheet with a spare grid row, the loop collects every
    data row from its start row on, whatever the batch size. *)
Lemma fetch_batches_contiguous fuel b H s acc w :
  contiguous sh -> spare_row sh ->
  0 < b -> 2 <= s ->
  (Z.to_nat (Sheets.sh_rowCount sh - s) <= fuel)%nat ->
  (fetch_batches (Sheets.env_of clk faults sh) fuel (Sheets.sh_title sh) b H
     (Sheets.sh_rowCount sh) s acc w).1
  = Normal (acc ++ rows_from sh H s).
Proof.
  intros Hcont Hspare Hb. unfold spare_row in Hspare.
  assert (List.length (visible sh) = List.length (Sheets.sh_rows sh)) as Hvis
    by (unfold visible; by rewrite length_fmap).
  revert s acc w.
  induction fuel as [|fuel IH]; intros s acc w Hs Hfuel; simpl.
  - assert ((s <? Sheets.sh_rowCount sh)%Z = false) as ->
      by (apply Z.ltb_ge; lia).
    simpl. unfold rows_from. rewrite drop_ge by lia. simpl.
    by rewrite app_nil_r.
  - destruct (s <? Sheets.sh_rowCount sh)%Z eqn:Hlt.
    2:{ apply Z.ltb_ge in Hlt. simpl. unfold rows_from.
        rewrite drop_ge by lia. simpl. by rewrite app_nil_r. }
    apply Z.ltb_lt in Hlt.
    unfold mbind, M_bind, log_event. simpl.
    rewrite read_contiguous by done. simpl.
    set (total := Sheets.sh_rowCount sh) in *.
    set (D := drop (Z.to_nat (s - 1)) (visible sh)).
    set (n := Z.to_nat (Z.min (s + b - 1) total - s + 1)).
    assert (List.length D = (List.length (visible sh) - Z.to_nat (s - 1))%nat)
      as HD by (unfold D; by rewrite length_drop).
    destruct (take n D) as [|row got] eqn:Htake; simpl.
    + assert (D = []) as HDnil.
      { destruct D as [|d D']; [done|].
        assert (n <> 0)%nat by (unfold n; lia).
        destruct n; [done | simpl in Htake; congruence]. }
      unfold rows_from. fold D. rewrite HDnil. simpl. by rewrite app_nil_r.
    + rewrite IH by lia. f_equal. unfold push_rows.
      rewrite <- app_assoc. f_equal. unfold rows_from. fold D.
      replace (Z.to_nat (s + b - 1))
        with (Z.to_nat (s - 1) + Z.to_nat b)%nat by lia.
      rewrite <- drop_drop. fold D. rewrite <- Htake.
      rewrite <- (rows_split H D s n (Z.to_nat b)).
      * f_equal. apply imap_ext. intros i x _. simpl. f_equal. lia.
      * unfold n. lia.
      * unfold n. lia.
Qed.

End Contiguous.

Section AfterTheReader.

Context (env : Env).

(** What follows the reader looks at the clock, the table and the count of
    writes, and appends to the trace: two worlds that differ in their trace
    only are taken to the same result. *)
Lemma finish_frame onError start c w :
  exists r t tb u post,
    (List.length (submitted post) <= 1)%nat
    /\ forall w', tick w' = tick w -> table w' = table w ->
                  upserts w' = upserts w ->
                  finish env onError start c w'
                  = (r, mkWorld t tb u (trace w' ++ post)).
Proof.
  destruct c as [rows|e|]; simpl.
  - destruct (upsert_error env (upserts w)) as [e|] eqn:Hfault.
    + destruct (onError e) as [[]|e'|] eqn:Hcb;
        eexists _, _, _, _, [Upsert (stamp_rows env (tick w) rows); OnError e];
        (split; [simpl; lia|]); intros w' Ht Htb Hu;
        rewrite Hu, Hfault; unfold fail, add_events; rewrite Hcb; simpl;
        rewrite ?Ht, ?Htb, ?Hu, <- ?app_assoc; reflexivity.
    + eexists _, _, _, _, [Upsert (stamp_rows env (tick w) rows)].
      split; [simpl; lia|]. intros w' Ht Htb Hu.
      rewrite Hu, Hfault, ?Ht, ?Htb. reflexivity.
  - destruct (onError e) as [[]|e'|] eqn:Hcb;
      eexists _, _, _, _, [OnError e];
      (split; [simpl; lia|]); intros w' Ht Htb Hu;
      unfold fail, add_events; rewrite Hcb; simpl;
      rewrite ?Ht, ?Htb, ?Hu; reflexivity.
  - exists OutOfFuel, (tick w), (table w), (upserts w), [].
    split; [simpl; lia|]. intros w' <- <- <-.
    destruct w'; simpl. by rewrite app_nil_r.
Qed.

End AfterTheReader.

(** The batch size matters to the reader through its loop only. *)
Lemma fetchSheetData_through_loop (env : Env) fuel name b1 b2 w :
  (forall H more sheets props w',
      values_get env (mkRange name 1 1) = Resolved (Some (H :: more)) ->
      spreadsheets_get env name = Resolved sheets ->
      find (fun s => String.eqb (title s) name) sheets = Some props ->
      (fetch_batches env fuel name b1 H (rowCount props) 2 [] w').1
      = (fetch_batches env fuel name b2 H (rowCount props) 2 [] w').1) ->
  (fetchSheetData env fuel (Some name) (Some b1) w).1
  = (fetchSheetData env fuel (Some name) (Some b2) w).1.
Proof.
  intros Hloop.
  destruct (values_get env (mkRange name 1 1)) as [[[|H more]|]|e] eqn:Hhdr.
  2:{ destruct (spreadsheets_get env name) as [sheets|e] eqn:Hmeta.
      - destruct (find (fun s => String.eqb (title s) name) sheets)
          as [props|] eqn:Hfind.
        + rewrite !(fetchSheetData_loop env fuel _ _ H more sheets props w)
            by done.
          by apply (Hloop H more sheets props).
        + unfold fetchSheetData; rewrite !try_catch_rethrow; simpl.
          unfold mbind, M_bind, log_event; simpl.
          rewrite Hhdr; simpl. rewrite Hmeta; simpl. by rewrite Hfind.
      - unfold fetchSheetData; rewrite !try_catch_rethrow; simpl.
        unfold mbind, M_bind, log_event; simpl.
        rewrite Hhdr; simpl. by rewrite Hmeta. }
  all: unfold fetchSheetData; rewrite !try_catch_rethrow; simpl;
    unfold mbind, M_bind, log_event; simpl; by rewrite Hhdr.
Qed.

(** On a contiguous sheet with a spare grid row, what the reader returns
    does not depend on the batch size. *)
Lemma fetchSheetData_batch_independent clk faults sh fuel name b1 b2 w :
  contiguous sh -> spare_row sh ->
  0 < b1 -> 0 < b2 ->
  (Z.to_nat (Sheets.sh_rowCount sh) <= fuel)%nat ->
  (fetchSheetData (Sheets.env_of clk faults sh) fuel (Some name) (Some b1) w).1
  = (fetchSheetData (Sheets.env_of clk faults sh) fuel (Some name) (Some b2) w).1.
Proof.
  intros Hcont Hspare Hb1 Hb2 Hfuel.
  apply fetchSheetData_through_loop.
  intros H more sheets props w' _ Hmeta Hfind.
  simpl in Hmeta. unfold Sheets.metadata in Hmeta.
  destruct (String.eqb name (Sheets.sh_title sh)) eqn:Hname; [|done].
  apply String.eqb_eq in Hname as ->. injection Hmeta as <-.
  simpl in Hfind. rewrite String.eqb_refl in Hfind. injection Hfind as <-.
  simpl. by rewrite !fetch_batches_contiguous by (done || lia).
Qed.

(** C5, as the code has it.  Over a sheet whose data rows form one block
    below the header and end before the last grid row, any two positive
    batch sizes make the reader return the same rows and the pass return the
    same result, send the same payload in at most one bulk write, and leave
    the same table. *)
Theorem batchSize_only_chunks_reads
    (clk : nat -> string) (faults : nat -> option JsError) (sh : Sheets.Sheet)
    (fuel : nat) (name : option string) (b1 b2 : Z) (flag : option bool)
    (cb : option (JsError -> Completion unit)) (w : World) :
  contiguous sh -> spare_row sh ->
  0 < b1 -> 0 < b2 ->
  (Z.to_nat (Sheets.sh_rowCount sh) <= fuel)%nat ->
  let env := Sheets.env_of clk faults sh in
  let sheetName := default "Sheet1" name in
  let pass1 := syncSheetsToSupabase env fuel (mkOptions name (Some b1) flag cb) w in
  let pass2 := syncSheetsToSupabase env fuel (mkOptions name (Some b2) flag cb) w in
  (forall w', (fetchSheetData env fuel (Some sheetName) (Some b1) w').1
              = (fetchSheetData env fuel (Some sheetName) (Some b2) w').1)
  /\ pass1.1 = pass2.1
  /\ (exists payloads,
         (List.length payloads <= 1)%nat
         /\ submitted (trace pass1.2) = submitted (trace w) ++ payloads
         /\ submitted (trace pass2.2) = submitted (trace w) ++ payloads)
  /\ table pass1.2 = table pass2.2.
Proof.
  intros Hcont Hspare Hb1 Hb2 Hfuel env sheetName pass1 pass2.
  assert (forall w',
             (fetchSheetData env fuel (Some sheetName) (Some b1) w').1
             = (fetchSheetData env fuel (Some sheetName) (Some b2) w').1)
    as Hsame by (intros w'; by apply fetchSheetData_batch_independent).
  split; [exact Hsame|].
  unfold pass1, pass2. rewrite !syncSheetsToSupabase_run. simpl.
  fold sheetName.
  set (onError := default (fun _ => Normal tt) cb).
  set (w1 := mkWorld (S (tick w)) (table w) (upserts w) (trace w)).
  specialize (Hsame w1).
  destruct (fetchSheetData_frame env fuel (Some sheetName) (Some b1))
    as (c1 & evs1 & Hsub1 & Hrun1).
  destruct (fetchSheetData_frame env fuel (Some sheetName) (Some b2))
    as (c2 & evs2 & Hsub2 & Hrun2).
  rewrite Hrun1, Hrun2 in Hsame |- *. simpl in Hsame |- *. subst c2.
  destruct (finish_frame env onError (clock env (tick w)) c1 w1)
    as (r & t & tb & u & post & Hpost & Hfin).
  rewrite !Hfin by done. simpl.
  split; [done|]. split; [|done].
  exists (submitted post). split; [done|].
  rewrite !submitted_app, Hsub1, Hsub2. simpl. by rewrite app_nil_r.
Qed.

Lemma batchSize_only_chunks_reads_witness :
  let env := Example.env 4 in
  let pass1 := syncSheetsToSupabase env 4 (Example.options 1) initial_world in
  let pass2 := syncSheetsToSupabase env 4 (Example.options 2) initial_world in
  (forall w', (fetchSheetData env 4 (Some "Sheet1") (Some 1) w').1
              = (fetchSheetData env 4 (Some "Sheet1") (Some 2) w').1)
  /\ pass1.1 = pass2.1
  /\ (exists payloads,
         (List.length payloads <= 1)%nat
         /\ submitted (trace pass1.2) = [] ++ payloads
         /\ submitted (trace pass2.2) = [] ++ payloads)
  /\ table pass1.2 = table pass2.2.
Proof.
  apply (batchSize_only_chunks_reads Example.clk (fun _ => None)
           (Example.sheet 4) 4 None 1 2 None None initial_world).
  - unfold contiguous, visible. simpl. by repeat constructor.
  - unfold spare_row. simpl. lia.
  - lia.
  - lia.
  - simpl. lia.
Defined.

(** C5, as stated, fails in two ways.  On the sheet of the worked example
    with declared row count 3, batch size 1 never asks for row 3 and batch
    size 2 does: one record against two.  On a sheet with a blank row inside
    its data, batch size 1 stops at the blank row (the read returns no rows
    and the loop breaks) while batch size 50 reads across it: one record
    against three. *)
Lemma batchSize_changes_the_rows :
  (let pass1 :=
     syncSheetsToSupabase (Example.env 3) 5 (Example.options 1) initial_world in
   let pass2 :=
     syncSheetsToSupabase (Example.env 3) 5 (Example.options 2) initial_world in
   pass1.1 = Normal (Success (Example.clk 0) (Example.clk 2) 1)
   /\ pass2.1 = Normal (Success (Example.clk 0) (Example.clk 3) 2)
   /\ (Example.ids <$> submitted (trace pass1.2)) = [[Some (JStr "2")]]
   /\ (Example.ids <$> submitted (trace pass2.2))
      = [[Some (JStr "2"); Some (JStr "3")]])
  /\
  (let pass1 :=
     syncSheetsToSupabase Gap.env 5 (Example.options 1) initial_world in
   let pass2 :=
     syncSheetsToSupabase Gap.env 5 (Example.options 50) initial_world in
   pass1.1 = Normal (Success (Example.clk 0) (Example.clk 2) 1)
   /\ pass2.1 = Normal (Success (Example.clk 0) (Example.clk 4) 3)
   /\ (Example.ids <$> submitted (trace pass1.2)) = [[Some (JStr "2")]]
   /\ (Example.ids <$> submitted (trace pass2.2))
      = [[Some (JStr "2"); Some (JStr "3"); Some (JStr "4")]]).
Proof. split; by_running. Qed.

(** ** Two passes over an unchanged sheet *)

Section StoreFacts.

Import Store.

Lemma conflict_key_union r x :
  conflict_key x = conflict_key r -> conflict_key (r ∪ x) = conflict_key r.
Proof.
  unfold conflict_key. intros Hx. rewrite lookup_union.
  destruct (r !! "sheet_row_id") as [v|] eqn:Hr; rewrite Hx; simpl; done.
Qed.

Lemma keys_upsert_row_in r rows :
  conflict_key r ∈ keys rows -> keys (upsert_row r rows) = keys rows.
Proof.
  unfold keys. induction rows as [|x rows IH]; simpl.
  - by intros ?%elem_of_nil.
  - intros Hin. destruct (decide (conflict_key x = conflict_key r)) as [Hx|Hx].
    + simpl. by rewrite conflict_key_union, Hx.
    + simpl. f_equal. apply IH.
      apply elem_of_cons in Hin as [Heq|Hin]; [congruence | done].
Qed.

Lemma keys_upsert_row_notin r rows :
  conflict_key r ∉ keys rows ->
  keys (upsert_row r rows) = keys rows ++ [conflict_key r].
Proof.
  unfold keys. induction rows as [|x rows IH]; simpl; [done|].
  intros Hnotin. apply not_elem_of_cons in Hnotin as [Hne Hnotin].
  destruct (decide (conflict_key x = conflict_key r)); [congruence|].
  simpl. f_equal. by apply IH.
Qed.

Lemma keys_upsert_row r rows :
  keys (upsert_row r rows) = keys rows
  \/ ((conflict_key r ∉ keys rows)
      /\ keys (upsert_row r rows) = keys rows ++ [conflict_key r]).
Proof.
  destruct (decide (conflict_key r ∈ keys rows)) as [Hin|Hnotin].
  - left. by apply keys_upsert_row_in.
  - right. split; [done|]. by apply keys_upsert_row_notin.
Qed.

Lemma NoDup_upsert_row r rows :
  NoDup (keys rows) -> NoDup (keys (upsert_row r rows)).
Proof.
  intros Hnd. destruct (keys_upsert_row r rows) as [-> | [Hnotin ->]]; [done|].
  apply NoDup_app. repeat split; [done | | apply NoDup_singleton].
  intros k Hk Hk'. apply list_elem_of_singleton in Hk'. by subst k.
Qed.

Lemma elem_of_keys_upsert_row r rows k :
  k ∈ keys (upsert_row r rows) <-> k = conflict_key r \/ k ∈ keys rows.
Proof.
  destruct (decide (conflict_key r ∈ keys rows)) as [Hin|Hnotin].
  - rewrite keys_upsert_row_in by done. naive_solver.
  - rewrite keys_upsert_row_notin by done.
    rewrite elem_of_app, list_elem_of_singleton. naive_solver.
Qed.

Lemma NoDup_upsert leads rows :
  NoDup (keys rows) -> NoDup (keys (upsert leads rows)).
Proof.
  unfold upsert. revert rows.
  induction leads as [|lead leads IH]; intros rows Hnd; simpl; [done|].
  apply IH. by apply NoDup_upsert_row.
Qed.

Lemma elem_of_keys_upsert leads rows k :
  k ∈ keys (upsert leads rows)
  <-> k ∈ sheet_row_id <$> leads \/ k ∈ keys rows.
Proof.
  unfold upsert. revert rows.
  induction leads as [|lead leads IH]; intros rows; simpl.
  - rewrite elem_of_nil. naive_solver.
  - rewrite IH, elem_of_keys_upsert_row, elem_of_cons.
    unfold sheet_row_id, conflict_key. naive_solver.
Qed.

(** Writing records whose keys are all stored already adds no record. *)
Lemma keys_upsert_known leads rows :
  (forall lead, lead ∈ leads -> sheet_row_id lead ∈ keys rows) ->
  keys (upsert leads rows) = keys rows.
Proof.
  unfold upsert. revert rows.
  induction leads as [|lead leads IH]; intros rows Hknown; simpl; [done|].
  assert (keys (upsert_row (own lead) rows) = keys rows) as Hsame.
  { apply keys_upsert_row_in. apply (Hknown lead). by left. }
  rewrite IH; [done|].
  intros lead' Hlead'. rewrite Hsame. apply Hknown. by right.
Qed.

Lemma matching_absent k rows : k ∉ keys rows -> matching k rows = [].
Proof.
  unfold matching, keys. induction rows as [|x rows IH]; simpl; [done|].
  intros [Hne Hnotin]%not_elem_of_cons.
  rewrite filter_cons. destruct (decide (conflict_key x = k)); [congruence|].
  by apply IH.
Qed.

(** Under the uniqueness constraint, a stored key has exactly one record. *)
Lemma matching_unique k rows :
  NoDup (keys rows) -> k ∈ keys rows -> List.length (matching k rows) = 1%nat.
Proof.
  unfold matching, keys. induction rows as [|x rows IH]; simpl.
  - by intros _ ?%elem_of_nil.
  - intros [Hx Hnd]%NoDup_cons Hin.
    rewrite filter_cons. destruct (decide (conflict_key x = k)) as [<-|Hne].
    + simpl. f_equal.
      pose proof (matching_absent (conflict_key x) rows Hx) as Hnone.
      unfold matching in Hnone. by rewrite Hnone.
    + apply IH; [done|].
      apply elem_of_cons in Hin as [Heq|Hin]; [congruence | done].
Qed.

End StoreFacts.

Section TwoPasses.

Context (env : Env).

Lemma set_prop_same_but_last_sync k v o1 o2 :
  same_but_last_sync o1 o2 ->
  same_but_last_sync (set_prop k v o1) (set_prop k v o2).
Proof.
  intros [Hown Hproto]. unfold same_but_last_sync, set_prop.
  rewrite <- Hproto.
  assert (delete "last_sync" (<[k := v]> (own o1))
          = delete "last_sync" (<[k := v]> (own o2))) as Hins.
  { destruct (decide (k = "last_sync")) as [->|Hne].
    - by rewrite !delete_insert_eq.
    - by rewrite !delete_insert_ne, Hown by done. }
  repeat case_match; simpl; split; congruence.
Qed.

Lemma forEach_header_same_but_last_sync index headers row o1 o2 :
  same_but_last_sync o1 o2 ->
  same_but_last_sync (forEach_header index headers row o1)
                     (forEach_header index headers row o2).
Proof.
  revert index o1 o2.
  induction headers as [|h headers IH]; intros index o1 o2 Hsame; simpl;
    [done|].
  apply IH. by apply set_prop_same_but_last_sync.
Qed.

(** The time of the mapping shows in [last_sync] only. *)
Lemma erase_last_sync_stamp stamp stamp' H R rowIndex :
  erase_last_sync (mapSheetRowToLeadObject_at stamp H R rowIndex)
  = erase_last_sync (mapSheetRowToLeadObject_at stamp' H R rowIndex).
Proof.
  unfold erase_last_sync, mapSheetRowToLeadObject_at.
  apply forEach_header_same_but_last_sync. split; [|done]. simpl.
  by rewrite !delete_insert_eq.
Qed.

Lemma erase_last_sync_stamp_rows k k' rows :
  erase_last_sync <$> stamp_rows env k rows
  = erase_last_sync <$> stamp_rows env k' rows.
Proof.
  unfold stamp_rows. rewrite !fmap_imap.
  revert k k'. induction rows as [|r rows IH]; intros k k'; simpl; [done|].
  f_equal; [apply erase_last_sync_stamp|].
  etrans; [|etrans; [apply (IH (S k) (S k'))|]];
    apply imap_ext; intros i x _; simpl;
    apply erase_last_sync_stamp.
Qed.

Lemma sheet_row_id_erase lead :
  sheet_row_id lead = erase_last_sync lead !! "sheet_row_id".
Proof. unfold sheet_row_id, erase_last_sync. by rewrite lookup_delete_ne. Qed.

Lemma sheet_row_id_stamp_rows k k' rows :
  sheet_row_id <$> stamp_rows env k rows
  = sheet_row_id <$> stamp_rows env k' rows.
Proof.
  assert (forall leads : list JsObject,
             sheet_row_id <$> leads
             = (fun m : gmap string JsValue => m !! "sheet_row_id")
                 <$> (erase_last_sync <$> leads)) as Hvia.
  { intros leads. rewrite <- list_fmap_compose. apply list_fmap_ext.
    intros i lead _. apply sheet_row_id_erase. }
  by rewrite !Hvia, (erase_last_sync_stamp_rows k k').
Qed.

End TwoPasses.

Section PassFacts.

Context (env : Env).

(** A pass from a world with an empty trace is the closed form applied to
    what the reader gives, and the latter is the same in every world. *)
Lemma pass_closed_form fuel options :
  exists c evs,
    submitted evs = [] /\
    forall w,
      syncSheetsToSupabase env fuel options (fresh_trace w)
      = finish env (default (fun _ => Normal tt) (opt_onError options))
          (clock env (tick w)) c
          (mkWorld (S (tick w)) (table w) (upserts w) evs).
Proof.
  destruct (fetchSheetData_frame env fuel
              (Some (default "Sheet1" (opt_sheetName options)))
              (Some (default 50 (opt_batchSize options))))
    as (c & evs & Hsub & Hrun).
  exists c, evs. split; [done|]. intros w.
  rewrite syncSheetsToSupabase_run. simpl. by rewrite Hrun.
Qed.

Lemma finish_submitted onError start c w :
  submitted (trace (finish env onError start c w).2)
  = submitted (trace w)
    ++ match c with
       | Normal rows => [stamp_rows env (tick w) rows]
       | _ => []
       end.
Proof.
  destruct c as [rows|e|]; simpl.
  - destruct (upsert_error env (upserts w)) as [e|]; simpl.
    + rewrite trace_fail. simpl. rewrite !submitted_app. simpl.
      by rewrite app_nil_r.
    + by rewrite submitted_app.
  - rewrite trace_fail, submitted_app. done.
  - by rewrite app_nil_r.
Qed.

Lemma not_succeeded_fail onError start e w :
  ~ succeeded (fail env onError start e w).1.
Proof.
  unfold fail. intros (r & Hr & Hok).
  destruct (onError e); simpl in Hr; [|done..].
  injection Hr as <-. done.
Qed.

(** The table after a pass: as before, or with the payload written. *)
Lemma finish_table onError start c w :
  table (finish env onError start c w).2 = table w
  \/ exists rows,
       c = Normal rows
       /\ table (finish env onError start c w).2
          = Store.upsert (stamp_rows env (tick w) rows) (table w).
Proof.
  destruct c as [rows|e|]; simpl.
  - destruct (upsert_error env (upserts w)) as [e|]; simpl.
    + left. by rewrite table_fail.
    + right. by exists rows.
  - left. by rewrite table_fail.
  - by left.
Qed.

(** A pass that succeeded has written its payload. *)
Lemma finish_succeeded onError start c w :
  succeeded (finish env onError start c w).1 ->
  exists rows,
    c = Normal rows
    /\ table (finish env onError start c w).2
       = Store.upsert (stamp_rows env (tick w) rows) (table w).
Proof.
  destruct c as [rows|e|]; simpl.
  - destruct (upsert_error env (upserts w)) as [e|]; simpl.
    + by intros ?%not_succeeded_fail.
    + intros _. by exists rows.
  - by intros ?%not_succeeded_fail.
  - by intros (r & ? & _).
Qed.

End PassFacts.

(** C2.  Two consecutive passes over an unchanged source submit records that
    agree on every field but [last_sync]; the table satisfies the uniqueness
    constraint after both; once a pass has succeeded, each submitted record
    has exactly one stored record with its [sheet_row_id]; and the second
    pass after a successful first one adds no record. *)
Theorem two_passes_idempotent
    (env : Env) (fuel : nat) (options : Options) (w : World) :
  NoDup (Store.keys (table w)) ->
  let pass1 := syncSheetsToSupabase env fuel options (fresh_trace w) in
  let pass2 := syncSheetsToSupabase env fuel options (fresh_trace pass1.2) in
  erased (trace pass1.2) = erased (trace pass2.2)
  /\ NoDup (Store.keys (table pass2.2))
  /\ (succeeded pass1.1 \/ succeeded pass2.1 ->
      forall leads lead,
        leads ∈ submitted (trace pass1.2) -> lead ∈ leads ->
        List.length (matching (sheet_row_id lead) (table pass2.2)) = 1%nat)
  /\ (succeeded pass1.1 ->
      Store.keys (table pass2.2) = Store.keys (table pass1.2)).
Proof.
  intros Hnd pass1 pass2.
  destruct (pass_closed_form env fuel options) as (c & evs & Hsub & Hpass).
  set (onError := default (fun _ => Normal tt) (opt_onError options)) in *.
  assert (pass1 = finish env onError (clock env (tick w)) c
                    (mkWorld (S (tick w)) (table w) (upserts w) evs))
    as E1 by apply Hpass.
  assert (pass2 = finish env onError (clock env (tick pass1.2)) c
                    (mkWorld (S (tick pass1.2)) (table pass1.2)
                       (upserts pass1.2) evs))
    as E2 by apply Hpass.
  clearbody pass1 pass2.
  (* the payloads *)
  pose proof (finish_submitted env onError (clock env (tick w)) c
                (mkWorld (S (tick w)) (table w) (upserts w) evs)) as S1.
  pose proof (finish_submitted env onError (clock env (tick pass1.2)) c
                (mkWorld (S (tick pass1.2)) (table pass1.2)
                   (upserts pass1.2) evs)) as S2.
  rewrite <- E1 in S1. rewrite <- E2 in S2. simpl in S1, S2.
  rewrite Hsub in S1, S2. simpl in S1, S2.
  (* the tables *)
  pose proof (finish_table env onError (clock env (tick w)) c
                (mkWorld (S (tick w)) (table w) (upserts w) evs)) as T1.
  pose proof (finish_table env onError (clock env (tick pass1.2)) c
                (mkWorld (S (tick pass1.2)) (table pass1.2)
                   (upserts pass1.2) evs)) as T2.
  rewrite <- E1 in T1. rewrite <- E2 in T2. simpl in T1, T2.
  assert (NoDup (Store.keys (table pass1.2))) as Hnd1.
  { destruct T1 as [-> | (rows & _ & ->)]; [done | by apply NoDup_upsert]. }
  assert (NoDup (Store.keys (table pass2.2))) as Hnd2.
  { destruct T2 as [-> | (rows & _ & ->)]; [done | by apply NoDup_upsert]. }
  assert (forall k, k ∈ Store.keys (table pass1.2) ->
                    k ∈ Store.keys (table pass2.2)) as Hgrow.
  { intros k Hk. destruct T2 as [-> | (rows & _ & ->)]; [done|].
    apply elem_of_keys_upsert. by right. }
  split; [|split; [done|split]].
  - unfold erased. rewrite S1, S2. destruct c as [rows| |]; simpl; [|done..].
    f_equal. apply erase_last_sync_stamp_rows.
  - intros Hok leads lead Hleads Hlead.
    apply matching_unique; [done|].
    rewrite S1 in Hleads. destruct c as [rows| |];
      [|by apply elem_of_nil in Hleads..].
    apply list_elem_of_singleton in Hleads as ->.
    assert (sheet_row_id lead
              ∈ sheet_row_id <$> stamp_rows env (S (tick w)) rows) as Hid
      by by apply list_elem_of_fmap_2.
    destruct Hok as [Hok | Hok].
    + rewrite E1 in Hok. apply finish_succeeded in Hok
        as (rows' & [= <-] & Htable).
      rewrite <- E1 in Htable. simpl in Htable.
      apply Hgrow. rewrite Htable. apply elem_of_keys_upsert. by left.
    + rewrite E2 in Hok. apply finish_succeeded in Hok
        as (rows' & [= <-] & Htable).
      rewrite <- E2 in Htable. simpl in Htable.
      rewrite Htable. apply elem_of_keys_upsert. left.
      by rewrite (sheet_row_id_stamp_rows env _ (S (tick w))).
  - intros Hok. rewrite E1 in Hok. apply finish_succeeded in Hok
      as (rows & -> & Htable).
    rewrite <- E1 in Htable. simpl in Htable.
    destruct T2 as [-> | (rows' & [= <-] & ->)]; [done|].
    apply keys_upsert_known. intros lead Hlead.
    rewrite Htable. apply elem_of_keys_upsert. left.
    rewrite (sheet_row_id_stamp_rows env _ (S (tick pass1.2))).
    by apply list_elem_of_fmap_2.
Qed.

Lemma two_passes_idempotent_witness :
  let env := Example.env 1000 in
  let pass1 :=
    syncSheetsToSupabase env 5 (Example.options 50)
      (fresh_trace initial_world) in
  let pass2 :=
    syncSheetsToSupabase env 5 (Example.options 50) (fresh_trace pass1.2) in
  erased (trace pass1.2) = erased (trace pass2.2)
  /\ NoDup (Store.keys (table pass2.2))
  /\ (succeeded pass1.1 \/ succeeded pass2.1 ->
      forall leads lead,
        leads ∈ submitted (trace pass1.2) -> lead ∈ leads ->
        List.length (matching (sheet_row_id lead) (table pass2.2)) = 1%nat)
  /\ (succeeded pass1.1 ->
      Store.keys (table pass2.2) = Store.keys (table pass1.2)).
Proof.
  apply (two_passes_idempotent (Example.env 1000) 5 (Example.options 50)
           initial_world).
  simpl. apply NoDup_nil_2.
Defined.

(** The two passes of the worked example, run: both succeed, and the table
    holds the two records, stamped by the second pass. *)
Lemma two_passes_example :
  let env := Example.env 1000 in
  let pass1 :=
    syncSheetsToSupabase env 5 (Example.options 50) initial_world in
  let pass2 :=
    syncSheetsToSupabase env 5 (Example.options 50) (fresh_trace pass1.2) in
  pass1.1 = Normal (Success (Example.clk 0) (Example.clk 3) 2)
  /\ pass2.1 = Normal (Success (Example.clk 4) (Example.clk 7) 2)
  /\ table pass1.2 = [Example.alice (Example.clk 1); Example.bob (Example.clk 2)]
  /\ table pass2.2 = [Example.alice (Example.clk 5); Example.bob (Example.clk 6)].
Proof. by_running. Qed.

(** ** Termination *)

Section Termination.

Context (env : Env).

(** With a positive batch size the start row grows in every iteration, so a
    budget of [totalRows - startRow] iterations is never used up. *)
Lemma fetch_batches_enough_fuel fuel name b H total s acc w :
  0 < b ->
  (Z.to_nat (total - s) <= fuel)%nat ->
  (fetch_batches env fuel name b H total s acc w).1 <> OutOfFuel.
Proof.
  intros Hb. revert s acc w.
  induction fuel as [|fuel IH]; intros s acc w Hfuel; simpl.
  - assert ((s <? total)%Z = false) as -> by (apply Z.ltb_ge; lia). done.
  - destruct (s <? total)%Z eqn:Hlt; [|done].
    apply Z.ltb_lt in Hlt.
    unfold mbind, M_bind, log_event. simpl.
    destruct (values_get env _) as [values|e]; simpl; [|done].
    destruct (List.length (default [] values) =? 0)%nat; [done|].
    apply IH. lia.
Qed.

(** With a positive batch size and a callback that returns, a pass with
    enough budget returns a result. *)
Lemma syncSheetsToSupabase_returns options w :
  0 < default 50 (opt_batchSize options) ->
  (forall e, default (fun _ => Normal tt) (opt_onError options) e = Normal tt) ->
  exists fuel0, forall fuel, (fuel0 <= fuel)%nat ->
    exists r, (syncSheetsToSupabase env fuel options w).1 = Normal r.
Proof.
  intros Hb Hcb.
  set (name := default "Sheet1" (opt_sheetName options)).
  set (b := default 50 (opt_batchSize options)) in *.
  set (onError := default (fun _ => Normal tt) (opt_onError options)) in *.
  exists (match spreadsheets_get env name with
          | Resolved sheets =>
              match find (fun s => String.eqb (title s) name) sheets with
              | Some props => Z.to_nat (rowCount props)
              | None => 0%nat
              end
          | Rejected _ => 0%nat
          end).
  intros fuel Hfuel.
  rewrite syncSheetsToSupabase_run. fold name b onError.
  set (w1 := mkWorld _ _ _ _).
  assert ((fetchSheetData env fuel (Some name) (Some b) w1).1 <> OutOfFuel)
    as Hread.
  { destruct (values_get env (mkRange name 1 1)) as [[[|H more]|]|e] eqn:Hhdr.
    2:{ destruct (spreadsheets_get env name) as [sheets|e] eqn:Hmeta.
        - destruct (find (fun s => String.eqb (title s) name) sheets)
            as [props|] eqn:Hfind.
          + rewrite (fetchSheetData_loop env fuel _ _ H more sheets props w1)
              by done.
            apply fetch_batches_enough_fuel; [done | lia].
          + unfold fetchSheetData; rewrite try_catch_rethrow; simpl.
            unfold mbind, M_bind, log_event; simpl.
            rewrite Hhdr; simpl. rewrite Hmeta; simpl. by rewrite Hfind.
        - unfold fetchSheetData; rewrite try_catch_rethrow; simpl.
          unfold mbind, M_bind, log_event; simpl.
          rewrite Hhdr; simpl. by rewrite Hmeta. }
    all: unfold fetchSheetData; rewrite try_catch_rethrow; simpl;
      unfold mbind, M_bind, log_event; simpl; by rewrite Hhdr. }
  destruct (fetchSheetData env fuel (Some name) (Some b) w1) as [[rows|e|] w2];
    simpl in *; [| |done].
  - destruct (upsert_error env (upserts w2)) as [e|]; [|by eauto].
    unfold fail. rewrite Hcb. by eauto.
  - unfold fail. rewrite Hcb. by eauto.
Qed.

End Termination.

(** ** The key of the service account *)

Section PrivateKeyFacts.

Import PrivateKey.



Lemma has_pair_cons c s :
  has_pair (String c s)
  = match s with
    | EmptyString => false
    | String d _ =>
        (Ascii.eqb c backslash && Ascii.eqb d letter_n) || has_pair s
    end.
Proof. reflexivity. Qed.

Lemma privateKey_cons c d r :
  privateKey (String c (String d r))
  = if Ascii.eqb c backslash && Ascii.eqb d letter_n
    then String newline (privateKey r)
    else String c (privateKey (String d r)).
Proof. reflexivity. Qed.



Lemma one_line_head d r :
  exists rest, one_line (String d r) = String d rest /\ d <> newline
               \/ one_line (String d r) = String backslash rest.
Proof.
  simpl. destruct (Ascii.eqb d newline) eqn:Hd; [by eauto|].
  apply Ascii.eqb_neq in Hd. by eauto.
Qed.

Lemma has_pair_tail c s : has_pair (String c s) = false -> has_pair s = false.
Proof.
  rewrite has_pair_cons. destruct s; [done|]. by intros [_ ?]%orb_false_elim.
Qed.

Lemma privateKey_one_line key :
  has_pair key = false -> privateKey (one_line key) = key.
Proof.
  induction key as [|c r IH]; [done|]. intros Hkey.
  pose proof (has_pair_tail _ _ Hkey) as Hr. specialize (IH Hr).
  cbn [one_line]. destruct (Ascii.eqb c newline) eqn:Hc.
  - apply Ascii.eqb_eq in Hc as ->. rewrite privateKey_cons.
    replace (Ascii.eqb backslash backslash && Ascii.eqb letter_n letter_n)
      with true by reflexivity.
    by rewrite IH.
  - destruct r as [|d r']; [done|].
    destruct (one_line_head d r') as (rest & [[Hd Hne] | Hd]);
      rewrite Hd in IH |- *; rewrite privateKey_cons.
    + rewrite has_pair_cons in Hkey.
      apply orb_false_elim in Hkey as [-> _]. by rewrite IH.
    + replace (Ascii.eqb backslash letter_n) with false by reflexivity.
      rewrite andb_false_r. by rewrite IH.
Qed.

End PrivateKeyFacts.


(** X2. A key written on one line, with every line feed as backslash n, is
    read back as it was, whenever the key itself holds no backslash followed
    by n. *)
Theorem privateKey_round_trip (key : string) :
  PrivateKey.has_pair key = false ->
  PrivateKey.privateKey (PrivateKey.one_line key) = key.
Proof. apply privateKey_one_line. Qed.

Lemma privateKey_round_trip_witness :
  PrivateKey.privateKey
    (PrivateKey.one_line (String "a" (String PrivateKey.newline "b")))
  = String "a" (String PrivateKey.newline "b").
Proof. apply privateKey_round_trip. reflexivity. Defined.

(** ** The pages of the dashboard *)

Section DashboardFacts.

Import Dashboard.

Lemma ceil_div_spec a b :
  0 < b -> (ceil_div a b - 1) * b < a <= ceil_div a b * b.
Proof.
  intros Hb. unfold ceil_div.
  pose proof (Z.div_mod (- a) b ltac:(lia)) as Hdiv.
  pose proof (Z.mod_pos_bound (- a) b Hb) as Hmod.
  nia.
Qed.

Lemma ceil_div_le a b n : 0 < b -> (ceil_div a b <= n <-> a <= n * b).
Proof.
  intros Hb. pose proof (ceil_div_spec a b Hb). split; intros; nia.
Qed.

(** The page that holds the index [i]. *)
Lemma page_of_index_bounds i size :
  0 < size -> 0 <= i ->
  (i / size + 1 - 1) * size <= i <= (i / size + 1 - 1) * size + size - 1.
Proof.
  intros Hsize Hi.
  pose proof (Z.div_mod i size ltac:(lia)) as Hdiv.
  pose proof (Z.mod_pos_bound i size Hsize) as Hmod.
  nia.
Qed.

End DashboardFacts.

(** X3. The ranges the dashboard asks for tile the list of leads: the range
    of page n + 1 starts right after the range of page n, and every index
    of a stored lead (from 0 to totalCount - 1) lies in the range of exactly
    one page, which is between 1 and totalPages. *)
Theorem pages_tile_the_leads (p : Dashboard.Pagination) (i : Z) :
  0 < Dashboard.pageSize p ->
  0 <= i < Dashboard.totalCount p ->
  let at_page n := Dashboard.handlePageChange n p in
  let home := i / Dashboard.pageSize p + 1 in
  (forall n, Dashboard.range_from (at_page (n + 1))
             = Dashboard.range_to (at_page n) + 1)
  /\ 1 <= home <= Dashboard.totalPages p
  /\ Dashboard.range_from (at_page home) <= i <= Dashboard.range_to (at_page home)
  /\ forall n,
       Dashboard.range_from (at_page n) <= i <= Dashboard.range_to (at_page n) ->
       n = home.
Proof.
  intros Hsize Hi at_page home.
  unfold Dashboard.range_to, Dashboard.range_from, at_page,
    Dashboard.handlePageChange, Dashboard.totalPages. simpl.
  set (size := Dashboard.pageSize p) in *.
  pose proof (page_of_index_bounds i size Hsize ltac:(lia)) as Hhome.
  fold home in Hhome.
  pose proof (ceil_div_spec (Dashboard.totalCount p) size Hsize) as Hceil.
  pose proof (Z.div_pos i size ltac:(lia) Hsize) as Hdiv.
  split_and!.
  - intros n. lia.
  - unfold home. lia.
  - nia.
  - lia.
  - lia.
  - intros n Hn. nia.
Qed.

Lemma pages_tile_the_leads_witness :
  let p := Dashboard.mkPagination 1 10 25 in
  let at_page n := Dashboard.handlePageChange n p in
  (forall n, Dashboard.range_from (at_page (n + 1))
             = Dashboard.range_to (at_page n) + 1)
  /\ 1 <= 3 <= Dashboard.totalPages p
  /\ Dashboard.range_from (at_page 3) <= 24 <= Dashboard.range_to (at_page 3)
  /\ forall n,
       Dashboard.range_from (at_page n) <= 24 <= Dashboard.range_to (at_page n) ->
       n = 3.
Proof.
  apply (pages_tile_the_leads (Dashboard.mkPagination 1 10 25) 24).
  - simpl. lia.
  - simpl. lia.
Defined.

(** X4. The Next button is enabled exactly when the store holds a lead
    after the last index of the current page, and from page 1 on the
    Previous button is enabled exactly when the current range does not start
    at index 0. *)
Theorem buttons_follow_the_leads (p : Dashboard.Pagination) :
  0 < Dashboard.pageSize p ->
  1 <= Dashboard.page p ->
  (Dashboard.next_disabled p = false
   <-> Dashboard.range_to p + 1 < Dashboard.totalCount p)
  /\ (Dashboard.previous_disabled p = false <-> 0 < Dashboard.range_from p).
Proof.
  intros Hsize Hpage.
  unfold Dashboard.next_disabled, Dashboard.previous_disabled,
    Dashboard.range_to, Dashboard.range_from, Dashboard.totalPages.
  pose proof (ceil_div_le (Dashboard.totalCount p) (Dashboard.pageSize p)
                (Dashboard.page p) Hsize) as Hle.
  split.
  - rewrite Z.leb_gt. split; intros; nia.
  - rewrite Z.eqb_neq. split; intros; nia.
Qed.

Lemma buttons_follow_the_leads_witness :
  let p := Dashboard.mkPagination 2 10 25 in
  (Dashboard.next_disabled p = false <-> Dashboard.range_to p + 1 < 25)
  /\ (Dashboard.previous_disabled p = false <-> 0 < Dashboard.range_from p).
Proof.
  apply (buttons_follow_the_leads (Dashboard.mkPagination 2 10 25)).
  - simpl. lia.
  - simpl. lia.
Defined.

(** X5. Through the whole life of the dashboard, whatever buttons are
    pressed while they are enabled and whatever counts the fetches bring
    back, the page number never goes below 1, the page size stays 10, and
    every range asked for starts at an index that is not negative and spans
    ten rows. *)
Theorem dashboard_ranges_are_sound (history : list Dashboard.Pagination) :
  rtc Dashboard.step [Dashboard.initial] history ->
  forall p, p ∈ history ->
    Dashboard.pageSize p = 10
    /\ 1 <= Dashboard.page p
    /\ 0 <= Dashboard.range_from p
    /\ Dashboard.range_to p = Dashboard.range_from p + 9.
Proof.
  intros Hlife.
  assert (forall p, p ∈ history ->
            Dashboard.pageSize p = 10 /\ 1 <= Dashboard.page p) as Hinv.
  { revert Hlife.
    assert (forall p, p ∈ [Dashboard.initial] ->
              Dashboard.pageSize p = 10 /\ 1 <= Dashboard.page p) as Hstart.
    { intros p ->%list_elem_of_singleton. simpl. lia. }
    revert Hstart. generalize [Dashboard.initial] as start.
    intros start Hstart Hlife.
    induction Hlife as [h | h h' h'' Hstep _ IH]; [done|].
    apply IH. intros p Hp.
    destruct Hstep as [p0 q past Hclick | p0 snapshot past count Hsnap].
    - apply elem_of_cons in Hp as [-> | Hp]; [|by apply Hstart].
      destruct (Hstart p0 ltac:(by left)) as [Hsize Hpage].
      destruct Hclick as [p0 Hen | p0 Hen]; simpl.
      + unfold Dashboard.previous_disabled in Hen.
        apply Z.eqb_neq in Hen. lia.
      + lia.
    - apply elem_of_cons in Hp as [-> | Hp]; [|by apply Hstart].
      simpl. by apply Hstart. }
  intros p Hp. destruct (Hinv p Hp) as [Hsize Hpage].
  unfold Dashboard.range_to, Dashboard.range_from. rewrite Hsize.
  split_and!; try done; lia.
Qed.

Lemma dashboard_ranges_are_sound_witness :
  let fetched := Dashboard.set_count (Some 25) Dashboard.initial in
  let second := Dashboard.handlePageChange 2 fetched in
  Dashboard.pageSize second = 10
  /\ 1 <= Dashboard.page second
  /\ 0 <= Dashboard.range_from second
  /\ Dashboard.range_to second = Dashboard.range_from second + 9.
Proof.
  apply (dashboard_ranges_are_sound
           [Dashboard.handlePageChange 2
              (Dashboard.set_count (Some 25) Dashboard.initial);
            Dashboard.set_count (Some 25) Dashboard.initial;
            Dashboard.initial]).
  - eapply rtc_l.
    + apply (Dashboard.step_fetched Dashboard.initial Dashboard.initial []
               (Some 25)). by left.
    + apply rtc_once.
      apply (Dashboard.step_click
               (Dashboard.set_count (Some 25) Dashboard.initial)).
      apply (Dashboard.click_next
               (Dashboard.set_count (Some 25) Dashboard.initial)).
      reflexivity.
  - by left.
Defined.

(** ** The calls of a pass *)

Section Calls.

Context (env : Env).

(** The loop asks for the ranges of its iterations, in order, and for
    nothing else; each of them starts before the last row of the grid. *)
Lemma fetch_batches_calls fuel name b H total s acc :
  exists c m,
    (m <= fuel)%nat
    /\ (forall k, (k < m)%nat -> s + Z.of_nat k * b < total)
    /\ forall w,
         fetch_batches env fuel name b H total s acc w
         = (c, add_events
                 (ValuesGet <$> (batch_range name b total s <$> seq 0 m)) w).
Proof.
  revert s acc. induction fuel as [|fuel IH]; intros s acc; simpl.
  - destruct (s <? total)%Z.
    + exists OutOfFuel, 0%nat. split_and!; [lia | lia |].
      intros w. by rewrite add_events_nil.
    + exists (Normal acc), 0%nat. split_and!; [lia | lia |].
      intros w. unfold mret, M_ret. by rewrite add_events_nil.
  - destruct (s <? total)%Z eqn:Hlt.
    2:{ exists (Normal acc), 0%nat. split_and!; [lia | lia |].
        intros w. unfold mret, M_ret. by rewrite add_events_nil. }
    apply Z.ltb_lt in Hlt.
    assert (forall k, (k < 1)%nat -> s + Z.of_nat k * b < total) as Hone
      by (intros k Hk; assert (k = 0%nat) as -> by lia; lia).
    unfold mbind, M_bind, log_event. simpl.
    rewrite <- batch_range_0.
    destruct (values_get env (batch_range name b total s 0)) as [values|e];
      simpl.
    + destruct (List.length (default [] values) =? 0)%nat.
      * exists (Normal acc), 1%nat. split_and!; [lia | done |].
        intros w. reflexivity.
      * destruct (IH (s + b) (push_rows H s (default [] values) acc))
          as (c & m & Hm & Hlts & Hrun).
        exists c, (S m). split_and!; [lia | |].
        -- intros [|k] Hk; [lia|].
           specialize (Hlts k ltac:(lia)). lia.
        -- intros w. rewrite Hrun. unfold add_events; simpl.
           rewrite <- app_assoc. simpl. do 4 f_equal.
           rewrite <- fmap_S_seq, <- !list_fmap_compose.
           apply list_fmap_ext. intros i k _. simpl.
           by rewrite batch_range_S.
    + exists (Throw e), 1%nat. split_and!; [lia | done |].
      intros w. reflexivity.
Qed.

Lemma is_read_ranges (rs : list Range) : forallb is_read (ValuesGet <$> rs) = true.
Proof. by induction rs. Qed.

(** The reader starts with the header read and only reads. *)
Lemma fetchSheetData_calls fuel name b :
  exists c calls,
    forallb is_read calls = true
    /\ forall w,
         fetchSheetData env fuel (Some name) (Some b) w
         = (c, add_events (ValuesGet (mkRange name 1 1) :: calls) w).
Proof.
  unfold fetchSheetData. simpl.
  setoid_rewrite try_catch_rethrow.
  unfold mbind, M_bind, log_event. simpl.
  destruct (values_get env (mkRange name 1 1)) as [[[|H more]|]|e]; simpl.
  - exists (Throw no_header), []. split; [done|]. intros w. reflexivity.
  - destruct (spreadsheets_get env name) as [sheets|e]; simpl.
    + destruct (find _ sheets) as [props|]; simpl.
      * destruct (fetch_batches_calls fuel name b H (rowCount props) 2 [])
          as (c & m & _ & _ & Hrun).
        exists c, (SpreadsheetsGet name
                   :: (ValuesGet <$> data_reads name b (rowCount props) m)).
        split; [simpl; apply is_read_ranges|].
        intros w. rewrite Hrun. unfold add_events, data_reads; simpl.
        by rewrite <- !app_assoc.
      * exists (Throw sheet_undefined), [SpreadsheetsGet name].
        split; [done|].
        intros w. unfold add_events; simpl. by rewrite <- app_assoc.
    + exists (Throw e), [SpreadsheetsGet name]. split; [done|]. intros w.
      unfold add_events; simpl. by rewrite <- app_assoc.
  - exists (Throw values_undefined), []. split; [done|].
    intros w. reflexivity.
  - exists (Throw e), []. split; [done|]. intros w. reflexivity.
Qed.

(** A pass is its reads, followed by the closed form of the rest. *)
Lemma pass_anatomy fuel options w :
  let name := default "Sheet1" (opt_sheetName options) in
  exists c calls,
    forallb is_read calls = true
    /\ syncSheetsToSupabase env fuel options w
       = finish env (onError_of options) (clock env (tick w)) c
           (mkWorld (S (tick w)) (table w) (upserts w)
              (trace w ++ ValuesGet (mkRange name 1 1) :: calls)).
Proof.
  intros name.
  destruct (fetchSheetData_calls fuel name (default 50 (opt_batchSize options)))
    as (c & calls & Hreads & Hrun).
  exists c, calls. split; [done|].
  rewrite syncSheetsToSupabase_run. simpl. fold name. by rewrite Hrun.
Qed.

Lemma submitted_reads calls : forallb is_read calls = true -> submitted calls = [].
Proof.
  induction calls as [|[] calls IH]; simpl; try done.
  all: intros ?; by apply IH.
Qed.

Lemma callbacks_reads calls : forallb is_read calls = true -> callbacks calls = [].
Proof.
  induction calls as [|[] calls IH]; simpl; try done.
  all: intros ?; by apply IH.
Qed.

Lemma callbacks_app tr tr' : callbacks (tr ++ tr') = callbacks tr ++ callbacks tr'.
Proof. apply omap_app. Qed.

(** The only way a pass raises: the callback raised. *)
Lemma pass_throw_inv fuel options w e' :
  (syncSheetsToSupabase env fuel options w).1 = Throw e' ->
  exists err rest,
    onError_of options err = Throw e'
    /\ trace (syncSheetsToSupabase env fuel options w).2
       = trace w ++ rest ++ [OnError err]
    /\ callbacks rest = []
    /\ table (syncSheetsToSupabase env fuel options w).2 = table w.
Proof.
  destruct (pass_anatomy fuel options w) as (c & calls & Hreads & ->).
  set (hdr := ValuesGet _).
  assert (callbacks (hdr :: calls) = []) as Hcb
    by (simpl; by apply callbacks_reads).
  destruct c as [rows|e|]; simpl; [| |done].
  - destruct (upsert_error env (upserts w)) as [e|]; simpl; [|done].
    unfold fail. simpl.
    destruct (onError_of options e) as [[]|e''|] eqn:Hon; simpl; [done| |done].
    intros [= ->]. exists e, ((hdr :: calls) ++ [Upsert (stamp_rows env (S (tick w)) rows)]).
    split_and!; try done.
    + by rewrite <- !app_assoc.
    + by rewrite callbacks_app, Hcb.
  - unfold fail. simpl.
    destruct (onError_of options e) as [[]|e''|] eqn:Hon; simpl; [done| |done].
    intros [= ->]. exists e, (hdr :: calls).
    split_and!; try done. by rewrite <- !app_assoc.
Qed.

Lemma default_callback_never_raises fuel options w e' :
  opt_onError options = None ->
  (syncSheetsToSupabase env fuel options w).1 <> Throw e'.
Proof.
  intros Hdefault Hthrow.
  apply pass_throw_inv in Hthrow as (err & rest & Hon & _).
  unfold onError_of in Hon. by rewrite Hdefault in Hon.
Qed.

(** What a success result tells. *)
Lemma success_inv fuel options w started ended n :
  (syncSheetsToSupabase env fuel options w).1
  = Normal (Success started ended n) ->
  exists calls leads,
    trace (syncSheetsToSupabase env fuel options w).2
    = trace w ++ calls ++ [Upsert leads]
    /\ forallb is_read calls = true
    /\ List.length leads = n
    /\ table (syncSheetsToSupabase env fuel options w).2
       = Store.upsert leads (table w)
    /\ upserts (syncSheetsToSupabase env fuel options w).2 = S (upserts w)
    /\ started = clock env (tick w)
    /\ ended = clock env (tick w + n + 1)
    /\ tick (syncSheetsToSupabase env fuel options w).2 = (tick w + n + 2)%nat.
Proof.
  destruct (pass_anatomy fuel options w) as (c & calls & Hreads & ->).
  set (hdr := ValuesGet _).
  destruct c as [rows|e|]; simpl; [| |done].
  - destruct (upsert_error env (upserts w)) as [e|]; simpl.
    + unfold fail. destruct (onError_of options e); simpl; congruence.
    + intros [= <- <- <-].
      exists (hdr :: calls), (stamp_rows env (S (tick w)) rows).
      unfold stamp_rows. rewrite !length_imap.
      split_and!; try done.
      * by rewrite <- !app_assoc.
      * f_equal. lia.
      * lia.
  - unfold fail. destruct (onError_of options e); simpl; congruence.
Qed.

(** What a failure result tells. *)
Lemma failure_inv fuel options w started ended error :
  (syncSheetsToSupabase env fuel options w).1
  = Normal (Failure started ended error) ->
  exists rest err,
    trace (syncSheetsToSupabase env fuel options w).2
    = trace w ++ rest ++ [OnError err]
    /\ callbacks rest = []
    /\ (List.length (submitted rest) <= 1)%nat
    /\ message err = error
    /\ onError_of options err = Normal tt
    /\ table (syncSheetsToSupabase env fuel options w).2 = table w
    /\ started = clock env (tick w).
Proof.
  destruct (pass_anatomy fuel options w) as (c & calls & Hreads & ->).
  set (hdr := ValuesGet _).
  assert (callbacks (hdr :: calls) = []) as Hcb
    by (simpl; by apply callbacks_reads).
  assert (submitted (hdr :: calls) = []) as Hsub
    by (simpl; by apply submitted_reads).
  destruct c as [rows|e|]; simpl; [| |done].
  - destruct (upsert_error env (upserts w)) as [e|]; simpl; [|done].
    unfold fail. simpl.
    destruct (onError_of options e) as [[]|e''|] eqn:Hon; simpl; [|done..].
    intros [= <- <- <-].
    exists ((hdr :: calls) ++ [Upsert (stamp_rows env (S (tick w)) rows)]), e.
    split_and!; try done.
    + by rewrite <- !app_assoc.
    + by rewrite callbacks_app, Hcb.
    + rewrite submitted_app, Hsub. simpl. lia.
  - unfold fail. simpl.
    destruct (onError_of options e) as [[]|e''|] eqn:Hon; simpl; [|done..].
    intros [= <- <- <-].
    exists (hdr :: calls), e.
    split_and!; try done.
    + by rewrite <- !app_assoc.
    + rewrite Hsub. simpl. lia.
Qed.

End Calls.

(** X6. Whatever the collaborators answer, the calls a pass makes come in
    one order: the read of the header range first, then reads only, then at
    most one bulk write, then at most one call of the callback.  So a pass
    never writes twice, never reads after it wrote, and never goes on after
    the callback was called. *)
Theorem pass_calls_in_order
    (env : Env) (fuel : nat) (options : Options) (w : World) :
  let name := default "Sheet1" (opt_sheetName options) in
  let pass := syncSheetsToSupabase env fuel options w in
  exists calls writes errors,
    trace pass.2
    = trace w ++ ValuesGet (mkRange name 1 1) :: calls
      ++ (Upsert <$> writes) ++ (OnError <$> errors)
    /\ forallb is_read calls = true
    /\ (List.length writes <= 1)%nat
    /\ (List.length errors <= 1)%nat.
Proof.
  intros name pass. unfold pass.
  destruct (pass_anatomy env fuel options w) as (c & calls & Hreads & ->).
  fold name. set (hdr := ValuesGet _).
  exists calls.
  destruct c as [rows|e|]; simpl.
  - destruct (upsert_error env (upserts w)) as [e|]; simpl.
    + rewrite trace_fail. simpl.
      exists [stamp_rows env (S (tick w)) rows], [e]. simpl.
      split_and!; try done; try lia.
      by rewrite <- !app_assoc.
    + exists [stamp_rows env (S (tick w)) rows], []. simpl.
      split_and!; try done; try lia.
      by rewrite <- !app_assoc.
  - rewrite trace_fail. simpl. exists [], [e]. simpl.
    split_and!; try done; try lia.
    by rewrite <- !app_assoc.
  - exists [], []. simpl. rewrite app_nil_r. split_and!; try done; lia.
Qed.

(** X7. A pass that returns [{success: true, ...}] has sent exactly one bulk
    write, as its last call and after reads only; the payload has
    [rowsProcessed] records, the table is the old one with the payload
    upserted, the callback was not called, and the clock was read once for
    the start time, once per record and once for the end time. *)
Theorem success_means_written
    (env : Env) (fuel : nat) (options : Options) (w : World)
    (started ended : string) (n : nat) :
  let pass := syncSheetsToSupabase env fuel options w in
  pass.1 = Normal (Success started ended n) ->
  exists calls leads,
    trace pass.2 = trace w ++ calls ++ [Upsert leads]
    /\ forallb is_read calls = true
    /\ List.length leads = n
    /\ table pass.2 = Store.upsert leads (table w)
    /\ upserts pass.2 = S (upserts w)
    /\ started = clock env (tick w)
    /\ ended = clock env (tick w + n + 1)
    /\ tick pass.2 = (tick w + n + 2)%nat.
Proof. intros pass. by apply success_inv. Qed.

Lemma success_means_written_witness :
  let pass :=
    syncSheetsToSupabase (Example.env 1000) 5 (Example.options 50)
      initial_world in
  exists calls leads,
    trace pass.2 = trace initial_world ++ calls ++ [Upsert leads]
    /\ forallb is_read calls = true
    /\ List.length leads = 2%nat
    /\ table pass.2 = Store.upsert leads (table initial_world)
    /\ upserts pass.2 = S (upserts initial_world)
    /\ Example.clk 0 = clock (Example.env 1000) (tick initial_world)
    /\ Example.clk 3 = clock (Example.env 1000) (tick initial_world + 2 + 1)
    /\ tick pass.2 = (tick initial_world + 2 + 2)%nat.
Proof.
  apply (success_means_written (Example.env 1000) 5 (Example.options 50)
           initial_world (Example.clk 0) (Example.clk 3) 2).
  by_running.
Defined.

(** X8. A pass that returns [{success: false, ...}] has left the table as it
    was (the store rejects a refused bulk write as a whole); its last call is
    the one call of the callback, with the error whose message the result
    carries; and it has sent at most one bulk write. *)
Theorem failure_means_untouched
    (env : Env) (fuel : nat) (options : Options) (w : World)
    (started ended error : string) :
  let pass := syncSheetsToSupabase env fuel options w in
  pass.1 = Normal (Failure started ended error) ->
  exists rest err,
    trace pass.2 = trace w ++ rest ++ [OnError err]
    /\ callbacks rest = []
    /\ (List.length (submitted rest) <= 1)%nat
    /\ message err = error
    /\ onError_of options err = Normal tt
    /\ table pass.2 = table w
    /\ started = clock env (tick w).
Proof. intros pass. by apply failure_inv. Qed.

Lemma failure_means_untouched_witness :
  let pass :=
    syncSheetsToSupabase Stub.env 5 (Example.options 1) initial_world in
  exists rest err,
    trace pass.2 = trace initial_world ++ rest ++ [OnError err]
    /\ callbacks rest = []
    /\ (List.length (submitted rest) <= 1)%nat
    /\ message err = "Quota exceeded"
    /\ onError_of (Example.options 1) err = Normal tt
    /\ table pass.2 = table initial_world
    /\ Example.clk 0 = clock Stub.env (tick initial_world).
Proof.
  apply (failure_means_untouched Stub.env 5 (Example.options 1) initial_world
           (Example.clk 0) (Example.clk 1) "Quota exceeded").
  by_running.
Defined.

(** X9. A pass raises only if the callback raised: what leaves the pass is
    then what the callback raised, the callback was called once, as the last
    call, and the table is as it was.  With no [onError] option the pass
    never raises. *)
Theorem pass_raises_only_through_callback
    (env : Env) (fuel : nat) (options : Options) (w : World) (e' : JsError) :
  let pass := syncSheetsToSupabase env fuel options w in
  pass.1 = Throw e' ->
  opt_onError options <> None
  /\ exists err rest,
       onError_of options err = Throw e'
       /\ trace pass.2 = trace w ++ rest ++ [OnError err]
       /\ callbacks rest = []
       /\ table pass.2 = table w.
Proof.
  intros pass Hthrow. split.
  - intros Hnone. by apply (default_callback_never_raises env) in Hthrow.
  - by apply pass_throw_inv.
Qed.

Lemma pass_raises_only_through_callback_witness :
  let pass :=
    syncSheetsToSupabase Stub.empty_env 5 Endless.rethrow initial_world in
  opt_onError Endless.rethrow <> None
  /\ exists err rest,
       onError_of Endless.rethrow err = Throw values_undefined
       /\ trace pass.2 = trace initial_world ++ rest ++ [OnError err]
       /\ callbacks rest = []
       /\ table pass.2 = table initial_world.
Proof.
  apply (pass_raises_only_through_callback Stub.empty_env 5 Endless.rethrow
           initial_world values_undefined).
  by_running.
Defined.

(** ** The ranges a pass asks for *)

Section Ranges.

Context (env : Env).

Lemma reads_app tr tr' : reads (tr ++ tr') = reads tr ++ reads tr'.
Proof. apply omap_app. Qed.

Lemma reads_ranges (rs : list Range) : reads (ValuesGet <$> rs) = rs.
Proof. induction rs as [|r rs IH]; [done|]. simpl. by f_equal. Qed.

(** What comes after the reader reads no range. *)
Lemma reads_finish onError start c w :
  reads (trace (finish env onError start c w).2) = reads (trace w).
Proof.
  destruct c as [rows|e|]; simpl; [| |done].
  - destruct (upsert_error env (upserts w)) as [e|]; simpl.
    + rewrite trace_fail. simpl. rewrite !reads_app. simpl.
      by rewrite !app_nil_r.
    + rewrite reads_app. simpl. by rewrite app_nil_r.
  - rewrite trace_fail, reads_app. simpl. by rewrite app_nil_r.
Qed.

(** With a header row and a row count, the reads of the reader are the
    header read and the ranges of the iterations of its loop. *)
Lemma fetchSheetData_reads fuel name b H more sheets props :
  values_get env (mkRange name 1 1) = Resolved (Some (H :: more)) ->
  spreadsheets_get env name = Resolved sheets ->
  find (fun s => String.eqb (title s) name) sheets = Some props ->
  exists c m,
    (m <= fuel)%nat
    /\ (forall k, (k < m)%nat -> 2 + Z.of_nat k * b < rowCount props)
    /\ forall w,
         fetchSheetData env fuel (Some name) (Some b) w
         = (c, add_events
                 (ValuesGet (mkRange name 1 1) :: SpreadsheetsGet name
                  :: (ValuesGet <$> data_reads name b (rowCount props) m)) w).
Proof.
  intros Hhdr Hmeta Hfind.
  destruct (fetch_batches_calls env fuel name b H (rowCount props) 2 [])
    as (c & m & Hm & Hlts & Hrun).
  exists c, m. split_and!; try done.
  intros w.
  rewrite (fetchSheetData_loop env fuel name b H more sheets props w) by done.
  rewrite Hrun, add_events_app. done.
Qed.

Lemma pass_reads fuel options w H more sheets props :
  let name := default "Sheet1" (opt_sheetName options) in
  let b := default 50 (opt_batchSize options) in
  values_get env (mkRange name 1 1) = Resolved (Some (H :: more)) ->
  spreadsheets_get env name = Resolved sheets ->
  find (fun s => String.eqb (title s) name) sheets = Some props ->
  exists m,
    (m <= fuel)%nat
    /\ (forall k, (k < m)%nat -> 2 + Z.of_nat k * b < rowCount props)
    /\ reads (trace (syncSheetsToSupabase env fuel options w).2)
       = reads (trace w)
         ++ mkRange name 1 1 :: data_reads name b (rowCount props) m.
Proof.
  intros name b Hhdr Hmeta Hfind.
  destruct (fetchSheetData_reads fuel name b H more sheets props)
    as (c & m & Hm & Hlts & Hrun); try done.
  exists m. split_and!; try done.
  rewrite syncSheetsToSupabase_run. simpl. fold name b.
  rewrite Hrun, reads_finish. simpl.
  rewrite reads_app. simpl. by rewrite reads_ranges.
Qed.

(** A loop whose start row does not grow never leaves a grid it is in, as
    long as every read brings rows. *)
Lemma fetch_batches_stuck fuel name b H total s acc w :
  b <= 0 ->
  s < total ->
  (forall k, exists rows,
     values_get env (batch_range name b total s k) = Resolved (Some rows)
     /\ rows <> []) ->
  (fetch_batches env fuel name b H total s acc w).1 = OutOfFuel
  /\ List.length (reads (trace (fetch_batches env fuel name b H total s acc w).2))
     = (List.length (reads (trace w)) + fuel)%nat.
Proof.
  intros Hb. revert s acc w.
  induction fuel as [|fuel IH]; intros s acc w Hlt Hrows; simpl.
  - assert ((s <? total)%Z = true) as -> by (apply Z.ltb_lt; lia).
    simpl. split; [done | lia].
  - assert ((s <? total)%Z = true) as -> by (apply Z.ltb_lt; lia).
    destruct (Hrows 0%nat) as (rows & Hget & Hne).
    rewrite batch_range_0 in Hget.
    unfold mbind, M_bind, log_event. simpl. rewrite Hget. simpl.
    destruct rows as [|row rows]; [done|]. simpl.
    match goal with
    | |- context [fetch_batches env fuel name b H total (s + b) ?acc' ?w'] =>
        destruct (IH (s + b) acc' w') as [Hout Hlen]
    end.
    + lia.
    + intros k. setoid_rewrite <- batch_range_S. apply Hrows.
    + split; [done|]. rewrite Hlen. simpl.
      rewrite reads_app, length_app. simpl. lia.
Qed.

(** More budget does not change a loop that ended. *)
Lemma fetch_batches_more_fuel fuel fuel' name b H total s acc w :
  (fuel <= fuel')%nat ->
  (fetch_batches env fuel name b H total s acc w).1 <> OutOfFuel ->
  fetch_batches env fuel' name b H total s acc w
  = fetch_batches env fuel name b H total s acc w.
Proof.
  revert fuel' s acc w.
  induction fuel as [|fuel IH]; intros fuel' s acc w Hle Hend.
  - simpl in *. destruct fuel'; simpl; destruct (s <? total)%Z; done.
  - destruct fuel' as [|fuel']; [lia|]. simpl in *.
    destruct (s <? total)%Z; [|done].
    unfold mbind, M_bind, log_event in *. simpl in *.
    destruct (values_get env _) as [values|e]; simpl in *; [|done].
    destruct (List.length (default [] values) =? 0)%nat; [done|].
    apply IH; [lia | done].
Qed.

Lemma fetchSheetData_more_fuel fuel fuel' name b w :
  (fuel <= fuel')%nat ->
  (fetchSheetData env fuel name b w).1 <> OutOfFuel ->
  fetchSheetData env fuel' name b w = fetchSheetData env fuel name b w.
Proof.
  intros Hle. unfold fetchSheetData. rewrite !try_catch_rethrow.
  unfold mbind, M_bind, log_event. simpl.
  destruct (values_get env _) as [[[|H more]|]|e]; simpl; try done.
  destruct (spreadsheets_get env _) as [sheets|e]; simpl; [|done].
  destruct (find _ sheets) as [props|]; simpl; [|done].
  by apply fetch_batches_more_fuel.
Qed.

Lemma pass_more_fuel fuel fuel' options w :
  (fuel <= fuel')%nat ->
  (syncSheetsToSupabase env fuel options w).1 <> OutOfFuel ->
  syncSheetsToSupabase env fuel' options w
  = syncSheetsToSupabase env fuel options w.
Proof.
  intros Hle. rewrite !syncSheetsToSupabase_run. simpl.
  intros Hend. rewrite (fetchSheetData_more_fuel fuel fuel'); [done..|].
  intros Hout. apply Hend. by rewrite Hout.
Qed.

End Ranges.

(** X10. With a positive batch size, a header row and a row count, the
    ranges a pass asks for are the header range and then the ranges of the
    batches 0, 1, ... in order, and nothing else.  Each batch range starts
    at row 2 or later and before the last row of the grid, ends within
    the grid, spans at most [batchSize] rows, and the next one starts right
    after it: no row is asked for twice and none is skipped between two
    reads. *)
Theorem data_reads_walk_the_grid
    (env : Env) (fuel : nat) (options : Options) (w : World)
    (H : list string) (more : list (list string))
    (sheets : list SheetProperties) (props : SheetProperties) :
  let name := default "Sheet1" (opt_sheetName options) in
  let b := default 50 (opt_batchSize options) in
  let total := rowCount props in
  0 < b ->
  values_get env (mkRange name 1 1) = Resolved (Some (H :: more)) ->
  spreadsheets_get env name = Resolved sheets ->
  find (fun s => String.eqb (title s) name) sheets = Some props ->
  let pass := syncSheetsToSupabase env fuel options w in
  exists m,
    reads (trace pass.2)
    = reads (trace w) ++ mkRange name 1 1 :: data_reads name b total m
    /\ forall k, (k < m)%nat ->
         let r := batch_range name b total 2 k in
         rg_sheet r = name
         /\ 2 <= rg_first r < total
         /\ rg_first r <= rg_last r <= total
         /\ rg_last r - rg_first r < b
         /\ ((S k < m)%nat ->
             rg_first (batch_range name b total 2 (S k)) = rg_last r + 1).
Proof.
  intros name b total Hb Hhdr Hmeta Hfind pass.
  destruct (pass_reads env fuel options w H more sheets props)
    as (m & _ & Hlts & Hreads); try done.
  fold name b total in Hlts, Hreads.
  exists m. split; [done|].
  intros k Hk. pose proof (Hlts k Hk) as Hlt.
  unfold batch_range. simpl. split_and!; try done; try lia.
  intros Hnext. specialize (Hlts (S k) Hnext). lia.
Qed.

Lemma data_reads_walk_the_grid_witness :
  let pass :=
    syncSheetsToSupabase (Example.env 4) 5 (Example.options 1) initial_world in
  exists m,
    reads (trace pass.2)
    = reads (trace initial_world)
      ++ mkRange "Sheet1" 1 1 :: data_reads "Sheet1" 1 4 m
    /\ forall k, (k < m)%nat ->
         let r := batch_range "Sheet1" 1 4 2 k in
         rg_sheet r = "Sheet1"
         /\ 2 <= rg_first r < 4
         /\ rg_first r <= rg_last r <= 4
         /\ rg_last r - rg_first r < 1
         /\ ((S k < m)%nat ->
             rg_first (batch_range "Sheet1" 1 4 2 (S k)) = rg_last r + 1).
Proof.
  apply (data_reads_walk_the_grid (Example.env 4) 5 (Example.options 1)
           initial_world ["Name"; "Email"]
           [] [mkProps "Sheet1" 4] (mkProps "Sheet1" 4)).
  - simpl. lia.
  - reflexivity.
  - reflexivity.
  - reflexivity.
Defined.

(** X11. When the batch size divides the number of grid rows below row 2
    ([rowCount - 2]), no read of a pass reaches the last row of the grid:
    every batch range ends before row [rowCount], so a lead on that row is
    never fetched.  A grid of 2 rows or fewer is not read at all after the
    header. *)
Theorem last_grid_row_never_read
    (env : Env) (fuel : nat) (options : Options) (w : World)
    (H : list string) (more : list (list string))
    (sheets : list SheetProperties) (props : SheetProperties) :
  let name := default "Sheet1" (opt_sheetName options) in
  let b := default 50 (opt_batchSize options) in
  let total := rowCount props in
  0 < b ->
  values_get env (mkRange name 1 1) = Resolved (Some (H :: more)) ->
  spreadsheets_get env name = Resolved sheets ->
  find (fun s => String.eqb (title s) name) sheets = Some props ->
  (total - 2) mod b = 0 ->
  let pass := syncSheetsToSupabase env fuel options w in
  exists m,
    reads (trace pass.2)
    = reads (trace w) ++ mkRange name 1 1 :: data_reads name b total m
    /\ Forall (fun r => rg_last r < total) (data_reads name b total m)
    /\ (total <= 2 -> m = 0%nat).
Proof.
  intros name b total Hb Hhdr Hmeta Hfind Hdiv pass.
  destruct (pass_reads env fuel options w H more sheets props)
    as (m & _ & Hlts & Hreads); try done.
  fold name b total in Hlts, Hreads.
  exists m. split_and!; [done | |].
  - apply Forall_forall. intros r Hr.
    unfold data_reads in Hr. apply list_elem_of_fmap in Hr as (k & -> & Hk).
    apply elem_of_seq in Hk. specialize (Hlts k ltac:(lia)).
    unfold batch_range. simpl.
    apply Z.mod_divide in Hdiv; [|lia]. destruct Hdiv as [q Hq].
    assert (Z.of_nat k < q) by nia.
    assert (2 + Z.of_nat k * b + b <= total) by nia.
    lia.
  - intros Hsmall. destruct m as [|m]; [done|].
    specialize (Hlts 0%nat ltac:(lia)). lia.
Qed.

Lemma last_grid_row_never_read_witness :
  let pass :=
    syncSheetsToSupabase (Example.env 3) 5 (Example.options 1) initial_world in
  exists m,
    reads (trace pass.2)
    = reads (trace initial_world)
      ++ mkRange "Sheet1" 1 1 :: data_reads "Sheet1" 1 3 m
    /\ Forall (fun r => rg_last r < 3) (data_reads "Sheet1" 1 3 m)
    /\ (3 <= 2 -> m = 0%nat).
Proof.
  apply (last_grid_row_never_read (Example.env 3) 5 (Example.options 1)
           initial_world ["Name"; "Email"]
           [] [mkProps "Sheet1" 3] (mkProps "Sheet1" 3)).
  - simpl. lia.
  - reflexivity.
  - reflexivity.
  - reflexivity.
  - reflexivity.
Defined.

(** X12. A batch size of 0 or below makes the loop of the reader endless
    when the grid has more than 2 rows and every read brings rows: the start
    row never reaches the row count, so whatever the budget, the pass uses
    it up in the loop, one read per iteration, and never writes. *)
Theorem nonpositive_batchSize_never_ends
    (env : Env) (fuel : nat) (options : Options) (w : World)
    (H : list string) (more : list (list string))
    (sheets : list SheetProperties) (props : SheetProperties) :
  let name := default "Sheet1" (opt_sheetName options) in
  let b := default 50 (opt_batchSize options) in
  let total := rowCount props in
  b <= 0 ->
  values_get env (mkRange name 1 1) = Resolved (Some (H :: more)) ->
  spreadsheets_get env name = Resolved sheets ->
  find (fun s => String.eqb (title s) name) sheets = Some props ->
  2 < total ->
  (forall k, exists rows,
     values_get env (batch_range name b total 2 k) = Resolved (Some rows)
     /\ rows <> []) ->
  let pass := syncSheetsToSupabase env fuel options w in
  pass.1 = OutOfFuel
  /\ List.length (reads (trace pass.2))
     = (List.length (reads (trace w)) + 1 + fuel)%nat
  /\ submitted (trace pass.2) = submitted (trace w)
  /\ table pass.2 = table w.
Proof.
  intros name b total Hb Hhdr Hmeta Hfind Hbig Hrows pass.
  unfold pass. rewrite syncSheetsToSupabase_run. simpl. fold name b.
  rewrite (fetchSheetData_loop env fuel name b H more sheets props) by done.
  fold total.
  set (w1 := add_events _ _).
  destruct (fetch_batches_stuck env fuel name b H total 2 [] w1)
    as [Hout Hlen]; try done.
  destruct (fetch_batches_frame env fuel name b H total 2 [])
    as (c & evs & Hsub & Hrun).
  rewrite Hrun in Hout, Hlen |- *. simpl in Hout, Hlen. subst c. simpl.
  split_and!; try done.
  - rewrite Hlen. rewrite reads_app, length_app. simpl. lia.
  - rewrite !submitted_app, Hsub. simpl. by rewrite !app_nil_r.
Qed.

Lemma nonpositive_batchSize_never_ends_witness :
  let pass :=
    syncSheetsToSupabase Endless.env 7 (Example.options 0) initial_world in
  pass.1 = OutOfFuel
  /\ List.length (reads (trace pass.2))
     = (List.length (reads (trace initial_world)) + 1 + 7)%nat
  /\ submitted (trace pass.2) = submitted (trace initial_world)
  /\ table pass.2 = table initial_world.
Proof.
  apply (nonpositive_batchSize_never_ends Endless.env 7 (Example.options 0)
           initial_world ["a"] [] [mkProps "Sheet1" 10] (mkProps "Sheet1" 10)).
  - simpl. lia.
  - reflexivity.
  - reflexivity.
  - reflexivity.
  - simpl. lia.
  - intros k. exists [["a"]]. split; [reflexivity | congruence].
Defined.

(** X13. With a positive batch size and a callback that returns, a pass
    returns a result: some budget of iterations is enough, and a larger
    budget changes neither the result nor the calls, the table or the
    clock. *)
Theorem pass_returns_whatever_the_budget
    (env : Env) (options : Options) (w : World) :
  0 < default 50 (opt_batchSize options) ->
  (forall e, onError_of options e = Normal tt) ->
  exists fuel0, forall fuel, (fuel0 <= fuel)%nat ->
    (exists r, (syncSheetsToSupabase env fuel options w).1 = Normal r)
    /\ syncSheetsToSupabase env fuel options w
       = syncSheetsToSupabase env fuel0 options w.
Proof.
  intros Hb Hcb.
  destruct (syncSheetsToSupabase_returns env options w Hb Hcb)
    as (fuel0 & Hret).
  exists fuel0. intros fuel Hfuel. split; [by apply Hret|].
  apply pass_more_fuel; [done|].
  destruct (Hret fuel0 ltac:(lia)) as (r & ->). done.
Qed.

Lemma pass_returns_whatever_the_budget_witness :
  exists fuel0, forall fuel, (fuel0 <= fuel)%nat ->
    (exists r,
       (syncSheetsToSupabase (Example.env 1000) fuel (Example.options 50)
          initial_world).1 = Normal r)
    /\ syncSheetsToSupabase (Example.env 1000) fuel (Example.options 50)
         initial_world
       = syncSheetsToSupabase (Example.env 1000) fuel0 (Example.options 50)
           initial_world.
Proof.
  apply (pass_returns_whatever_the_budget (Example.env 1000)
           (Example.options 50) initial_world).
  - simpl. lia.
  - intros e. reflexivity.
Defined.

(** ** The trigger endpoint and the command line *)

Section Callers.

Context (env : Env).

(** What the handler makes of a pass, for the two methods it accepts. *)
Lemma handler_run fuel method w :
  method = "POST" \/ method = "GET" ->
  Api.handler env fuel method w
  = match syncSheetsToSupabase env fuel Api.no_options w with
    | (Normal (Success started ended n), w') =>
        (Normal (Api.mkResponse 200
                   (Api.Synced ("Successfully synced " +:+ pretty n +:+ " leads")
                      started ended n)), w')
    | (Normal (Failure _ _ error), w') =>
        (Normal (Api.mkResponse 500 (Api.SyncFailed error)), w')
    | (Throw error, w') =>
        (Normal (Api.mkResponse 500 (Api.Unexpected (message error))), w')
    | (OutOfFuel, w') => (OutOfFuel, w')
    end.
Proof.
  intros Hmethod. unfold Api.handler.
  assert (negb (String.eqb method "POST") && negb (String.eqb method "GET")
          = false) as ->.
  { destruct Hmethod as [-> | ->]; reflexivity. }
  unfold try_catch, mbind, M_bind, mret, M_ret.
  destruct (syncSheetsToSupabase env fuel Api.no_options w)
    as [[[started ended n|started ended error]|e|] w']; reflexivity.
Qed.

Lemma handler_other fuel method w :
  method <> "POST" -> method <> "GET" ->
  Api.handler env fuel method w
  = (Normal (Api.mkResponse 405 Api.MethodNotAllowed), w).
Proof.
  intros Hpost Hget. unfold Api.handler.
  apply String.eqb_neq in Hpost, Hget. by rewrite Hpost, Hget.
Qed.

(** A pass with every option at its default returns, given the budget. *)
Lemma default_pass_returns w :
  exists fuel0, forall fuel, (fuel0 <= fuel)%nat ->
    exists r, (syncSheetsToSupabase env fuel Api.no_options w).1 = Normal r.
Proof. apply syncSheetsToSupabase_returns; [done|]. by intros e. Qed.

End Callers.

(** X14. What the endpoint answers tells what happened.  The status is 405,
    200 or 500.  It is 405 exactly for a method other than POST and GET, and
    then nothing was called and nothing changed.  It is 200 exactly when the
    pass succeeded: one bulk write was sent, the table took it, and the
    message and [rowsProcessed] give the size of the payload.  It is 500
    exactly when the pass failed, the table is then as it was, and the body
    is [{error: 'Sync failed', details}], never the body of the [catch]
    block, which no run reaches. *)
Theorem handler_status_tells_what_happened
    (env : Env) (fuel : nat) (method : string) (w w' : World)
    (r : Api.Response) :
  Api.handler env fuel method w = (Normal r, w') ->
  (Api.status r = 405 /\ method <> "POST" /\ method <> "GET"
   /\ Api.body r = Api.MethodNotAllowed /\ w' = w)
  \/ (Api.status r = 200 /\ (method = "POST" \/ method = "GET")
      /\ exists calls leads started ended,
           Api.body r
           = Api.Synced ("Successfully synced " +:+ pretty (List.length leads)
                         +:+ " leads") started ended (List.length leads)
           /\ trace w' = trace w ++ calls ++ [Upsert leads]
           /\ forallb is_read calls = true
           /\ table w' = Store.upsert leads (table w))
  \/ (Api.status r = 500 /\ (method = "POST" \/ method = "GET")
      /\ exists details err,
           Api.body r = Api.SyncFailed details
           /\ message err = details
           /\ last (trace w') = Some (OnError err)
           /\ table w' = table w).
Proof.
  intros Hrun.
  destruct (decide (method = "POST" \/ method = "GET")) as [Hm | Hm].
  - rewrite handler_run in Hrun by done.
    destruct (syncSheetsToSupabase env fuel Api.no_options w)
      as [[[started ended n|started ended error]|e|] w2] eqn:Hpass.
    + injection Hrun as <- <-. right. left.
      destruct (success_inv env fuel Api.no_options w started ended n)
        as (calls & leads & Htrace & Hreads & Hlen & Htable & _).
      { by rewrite Hpass. }
      rewrite Hpass in Htrace, Htable. simpl in Htrace, Htable.
      split_and!; try done.
      exists calls, leads, started, ended. by rewrite Hlen.
    + injection Hrun as <- <-. right. right.
      destruct (failure_inv env fuel Api.no_options w started ended error)
        as (rest & err & Htrace & _ & _ & Hmsg & _ & Htable & _).
      { by rewrite Hpass. }
      rewrite Hpass in Htrace, Htable. simpl in Htrace, Htable.
      split_and!; try done.
      exists error, err. split_and!; try done.
      by rewrite Htrace, !app_assoc, last_snoc.
    + exfalso.
      apply (default_callback_never_raises env fuel Api.no_options w e);
        [done | by rewrite Hpass].
    + done.
  - assert (method <> "POST" /\ method <> "GET") as [Hpost Hget]
      by (split; intros ->; apply Hm; auto).
    rewrite handler_other in Hrun by done.
    injection Hrun as <- <-. left. by split_and!.
Qed.

Lemma handler_status_tells_what_happened_witness :
  let run := Api.handler (Example.env 1000) 5 "GET" initial_world in
  let r :=
    Api.mkResponse 200
      (Api.Synced "Successfully synced 2 leads" (Example.clk 0)
         (Example.clk 3) 2) in
  (Api.status r = 405 /\ "GET" <> "POST" /\ "GET" <> "GET"
   /\ Api.body r = Api.MethodNotAllowed /\ run.2 = initial_world)
  \/ (Api.status r = 200 /\ ("GET" = "POST" \/ "GET" = "GET")
      /\ exists calls leads started ended,
           Api.body r
           = Api.Synced ("Successfully synced " +:+ pretty (List.length leads)
                         +:+ " leads") started ended (List.length leads)
           /\ trace run.2 = trace initial_world ++ calls ++ [Upsert leads]
           /\ forallb is_read calls = true
           /\ table run.2 = Store.upsert leads (table initial_world))
  \/ (Api.status r = 500 /\ ("GET" = "POST" \/ "GET" = "GET")
      /\ exists details err,
           Api.body r = Api.SyncFailed details
           /\ message err = details
           /\ last (trace run.2) = Some (OnError err)
           /\ table run.2 = table initial_world).
Proof.
  apply (handler_status_tells_what_happened (Example.env 1000) 5 "GET"
           initial_world).
  apply injective_projections; [by_running | reflexivity].
Defined.

(** X15. The endpoint always answers: whatever the method and whatever the
    spreadsheet and the store do, the handler does not raise and, given the
    budget, returns a response, which a larger budget does not change. *)
Theorem handler_always_answers (env : Env) (method : string) (w : World) :
  (forall fuel e, (Api.handler env fuel method w).1 <> Throw e)
  /\ exists fuel0, forall fuel, (fuel0 <= fuel)%nat ->
       (exists r, (Api.handler env fuel method w).1 = Normal r)
       /\ Api.handler env fuel method w = Api.handler env fuel0 method w.
Proof.
  destruct (decide (method = "POST" \/ method = "GET")) as [Hm | Hm].
  - split.
    + intros fuel e. rewrite handler_run by done.
      by destruct (syncSheetsToSupabase env fuel Api.no_options w)
        as [[[]| |] ?].
    + destruct (default_pass_returns env w) as (fuel0 & Hret).
      exists fuel0. intros fuel Hfuel.
      rewrite !handler_run by done.
      rewrite (pass_more_fuel env fuel0 fuel) by
        (try done; destruct (Hret fuel0 ltac:(lia)) as (r & ->); done).
      destruct (Hret fuel0 ltac:(lia)) as (r & Hr).
      destruct (syncSheetsToSupabase env fuel0 Api.no_options w)
        as [[[]| |] ?]; simpl in Hr; try done; by eauto.
  - assert (method <> "POST" /\ method <> "GET") as [Hpost Hget]
      by (split; intros ->; apply Hm; auto).
    split.
    + intros fuel e. by rewrite handler_other.
    + exists 0%nat. intros fuel _. rewrite !handler_other by done.
      by eauto.
Qed.

(** X16. The command line exits with status 0 whenever the pass ends, also
    when the pass failed and returned [{success: false, ...}]: the promise
    of [syncSheetsToSupabase()] is never rejected, so [process.exit(1)] is
    never reached.  Given the budget, the pass ends. *)
Theorem main_always_exits_0 (env : Env) (w : World) :
  (forall fuel, (main env fuel w).1 = Normal 0
                \/ (main env fuel w).1 = OutOfFuel)
  /\ exists fuel0, forall fuel, (fuel0 <= fuel)%nat ->
       (main env fuel w).1 = Normal 0.
Proof.
  assert (forall fuel, (main env fuel w).1 = Normal 0
                       \/ (main env fuel w).1 = OutOfFuel) as Hstatus.
  { intros fuel. unfold main.
    destruct (syncSheetsToSupabase env fuel Api.no_options w)
      as [[r|e|] w'] eqn:Hpass; simpl; [by left | | by right].
    exfalso.
    apply (default_callback_never_raises env fuel Api.no_options w e);
      [done | by rewrite Hpass]. }
  split; [done|].
  destruct (default_pass_returns env w) as (fuel0 & Hret).
  exists fuel0. intros fuel Hfuel.
  destruct (Hstatus fuel) as [? | Hout]; [done|].
  destruct (Hret fuel Hfuel) as (r & Hr).
  unfold main in Hout.
  destruct (syncSheetsToSupabase env fuel Api.no_options w) as [[| |] ?];
    simpl in *; congruence.
Qed.

(** The command line over a spreadsheet without a header row: the pass
    fails, the exit status is 0. *)
Lemma main_exit_status_of_a_failed_pass :
  (syncSheetsToSupabase Stub.empty_env 5 Api.no_options initial_world).1
  = Normal (Failure (Example.clk 0) (Example.clk 1)
              "Cannot read properties of undefined (reading '0')")
  /\ (main Stub.empty_env 5 initial_world).1 = Normal 0.
Proof. by_running. Qed.

(** ** Rows wider than the header, and a column called [__proto__] *)

Section MapperEdges.

(** The loop reads the cells at the positions of the headers only. *)
Lemma forEach_header_ext index headers row row' lead :
  (forall k, (index <= k < index + List.length headers)%nat ->
             cell row k = cell row' k) ->
  forEach_header index headers row lead
  = forEach_header index headers row' lead.
Proof.
  revert index lead.
  induction headers as [|h headers IH]; intros index lead Hcells; simpl.
  - done.
  - rewrite (Hcells index) by (simpl; lia).
    apply IH. intros k Hk. apply Hcells. simpl. lia.
Qed.

Lemma cell_take n row k : (k < n)%nat -> cell (take n row) k = cell row k.
Proof. intros Hk. unfold cell. by rewrite lookup_take_lt. Qed.

(** While every header has a cell, an assignment to [__proto__] meets the
    inherited setter with a string, and is dropped. *)
Lemma forEach_header_proto index headers row lead :
  has_proto lead = true ->
  own lead !! "__proto__" = None ->
  (index + List.length headers <= List.length row)%nat ->
  has_proto (forEach_header index headers row lead) = true
  /\ own (forEach_header index headers row lead) !! "__proto__" = None.
Proof.
  revert index lead.
  induction headers as [|h headers IH]; intros index lead Hproto Hown Hlen;
    simpl in *.
  - done.
  - destruct (lookup_lt_is_Some_2 row index ltac:(lia)) as [v Hv].
    apply IH; [| |lia]; unfold set_prop, cell; rewrite Hv.
    + destruct (decide _); [|done]. by rewrite Hproto.
    + destruct (decide (fieldName h = "__proto__")) as [Heq | Hne].
      * by rewrite Hproto.
      * simpl. by rewrite lookup_insert_ne.
Qed.

End MapperEdges.

(** X17. The mapper reads a data row up to the width of the header row
    only: cells in columns that have no header are dropped, a row and the
    row cut to the width of the header give the same lead object. *)
Theorem cells_without_header_are_dropped
    (now : string) (headerRow dataRow : list string) (rowIndex : Z) :
  mapSheetRowToLeadObject_at now headerRow dataRow rowIndex
  = mapSheetRowToLeadObject_at now headerRow
      (take (List.length headerRow) dataRow) rowIndex.
Proof.
  unfold mapSheetRowToLeadObject_at.
  apply forEach_header_ext. intros k Hk. symmetry. apply cell_take. lia.
Qed.

(** X18. For a data row that has a cell for every header, a column whose
    header normalises to [__proto__] never becomes a field of the lead
    object: the assignment goes to the setter inherited from
    [Object.prototype], which ignores a string, and the object keeps its
    prototype. *)
Theorem proto_column_is_lost
    (now : string) (headerRow dataRow : list string) (rowIndex : Z) :
  (List.length headerRow <= List.length dataRow)%nat ->
  let lead := mapSheetRowToLeadObject_at now headerRow dataRow rowIndex in
  own lead !! "__proto__" = None /\ has_proto lead = true.
Proof.
  intros Hlen lead. unfold lead, mapSheetRowToLeadObject_at.
  destruct (forEach_header_proto 0 headerRow dataRow
              {| own := <["last_sync" := JStr now]>
                          (<["sheet_row_id" := JStr (pretty rowIndex)]> ∅);
                 has_proto := true |}) as [Hproto Hown]; done.
Qed.

Lemma proto_column_is_lost_witness :
  let lead :=
    mapSheetRowToLeadObject_at "t" ["Name"; "__PROTO__"] ["Ann"; "x"] 2 in
  own lead !! "__proto__" = None /\ has_proto lead = true.
Proof.
  apply (proto_column_is_lost "t" ["Name"; "__PROTO__"] ["Ann"; "x"] 2).
  simpl. lia.
Defined.

(** ** Normalised names are normal *)

Section NormalNames.

Lemma lower_char_idem c : lower_char (lower_char c) = lower_char c.
Proof. destruct c as [[] [] [] [] [] [] [] []]; reflexivity. Qed.

Lemma toLowerCase_idem s : toLowerCase (toLowerCase s) = toLowerCase s.
Proof.
  induction s as [|c s IH]; simpl; [done|]. by rewrite lower_char_idem, IH.
Qed.

(** Replacing the whitespace runs of a lowercase string keeps it
    lowercase. *)
Lemma toLowerCase_replace_runs b s :
  toLowerCase s = s ->
  toLowerCase (replace_runs b s) = replace_runs b s.
Proof.
  revert b. induction s as [|c s IH]; intros b Hlow; simpl in *; [done|].
  injection Hlow as Hc Hs.
  destruct (is_whitespace c).
  - destruct b; simpl; [by apply IH|]. f_equal. by apply IH.
  - simpl. rewrite Hc. f_equal. by apply IH.
Qed.

Lemma replace_runs_no_whitespace b s :
  all_chars (fun c => negb (is_whitespace c)) (replace_runs b s) = true.
Proof.
  revert b. induction s as [|c s IH]; intros b; simpl; [done|].
  destruct (is_whitespace c) eqn:Hc.
  - destruct b; simpl; by rewrite ?IH.
  - simpl. by rewrite Hc, IH.
Qed.

Lemma replace_runs_fixed b s :
  all_chars (fun c => negb (is_whitespace c)) s = true ->
  replace_runs b s = s.
Proof.
  revert b. induction s as [|c s IH]; intros b; simpl; [done|].
  intros [Hc Hs]%andb_prop. apply negb_true_iff in Hc. rewrite Hc.
  f_equal. by apply IH.
Qed.

End NormalNames.

(** X19. A normalised field name is in normal form: it holds no whitespace
    and no capital letter, and normalising it again gives it back.  So the
    fields of a record read back from the table map to themselves when they
    are used as headers again. *)
Theorem fieldName_is_normal (header : string) :
  all_chars (fun c => negb (is_whitespace c)) (fieldName header) = true
  /\ toLowerCase (fieldName header) = fieldName header
  /\ fieldName (fieldName header) = fieldName header.
Proof.
  assert (toLowerCase (fieldName header) = fieldName header) as Hlow.
  { unfold fieldName, replace_whitespace.
    apply toLowerCase_replace_runs, toLowerCase_idem. }
  split_and!; [apply replace_runs_no_whitespace | done |].
  unfold fieldName at 1. rewrite Hlow.
  apply replace_runs_fixed, replace_runs_no_whitespace.
Qed.

(** ** A missing tab, an empty sheet *)

(** X20. When the metadata request is rejected, or the metadata does not
    list a tab with the name that is read, the pass stops right after that
    request: it reads no data range and sends no bulk write, it calls the
    callback and, the callback having returned, returns a failure result.
    For the missing tab the error is the [TypeError] of reading
    [.properties] of [undefined]. *)
Theorem missing_tab_fails_before_data
    (env : Env) (fuel : nat) (options : Options) (w : World)
    (H : list string) (more : list (list string)) :
  let name := default "Sheet1" (opt_sheetName options) in
  let err :=
    match spreadsheets_get env name with
    | Rejected e => e
    | Resolved _ => sheet_undefined
    end in
  values_get env (mkRange name 1 1) = Resolved (Some (H :: more)) ->
  (forall sheets,
     spreadsheets_get env name = Resolved sheets ->
     find (fun s => String.eqb (title s) name) sheets = None) ->
  let pass := syncSheetsToSupabase env fuel options w in
  trace pass.2
  = trace w ++ [ValuesGet (mkRange name 1 1); SpreadsheetsGet name; OnError err]
  /\ table pass.2 = table w
  /\ upserts pass.2 = upserts w
  /\ (onError_of options err = Normal tt ->
      pass.1 = Normal (Failure (clock env (tick w)) (clock env (S (tick w)))
                               (message err))).
Proof.
  intros name err Hhdr Hmeta pass. unfold pass.
  rewrite syncSheetsToSupabase_run. simpl. fold name.
  unfold fetchSheetData. rewrite try_catch_rethrow. simpl.
  unfold mbind, M_bind, log_event. simpl.
  rewrite Hhdr. simpl. unfold err.
  destruct (spreadsheets_get env name) as [sheets|e]; simpl.
  - rewrite (Hmeta sheets) by done. simpl.
    rewrite trace_fail, table_fail, upserts_fail. simpl.
    split_and!; try done.
    + by rewrite <- !app_assoc.
    + intros Hcb. by rewrite result_fail.
  - rewrite trace_fail, table_fail, upserts_fail. simpl.
    split_and!; try done.
    + by rewrite <- !app_assoc.
    + intros Hcb. by rewrite result_fail.
Qed.

Lemma missing_tab_fails_before_data_witness :
  let pass :=
    syncSheetsToSupabase Untitled.env 5 (Example.options 50) initial_world in
  trace pass.2
  = trace initial_world
    ++ [ValuesGet (mkRange "Sheet1" 1 1); SpreadsheetsGet "Sheet1";
        OnError sheet_undefined]
  /\ table pass.2 = table initial_world
  /\ upserts pass.2 = upserts initial_world
  /\ pass.1
     = Normal (Failure (Example.clk 0) (Example.clk 1)
                 "Cannot read properties of undefined (reading 'properties')").
Proof.
  destruct (missing_tab_fails_before_data Untitled.env 5 (Example.options 50)
              initial_world ["Name"; "Email"] [])
    as (Htrace & Htable & Hcount & Hresult).
  - reflexivity.
  - intros sheets [= <-]. reflexivity.
  - split; [exact Htrace|]. split; [exact Htable|]. split; [exact Hcount|].
    apply Hresult. reflexivity.
Defined.

(** X21. A sheet without data rows is still written: when the grid has no
    row below the header to start a batch at, or the first batch comes back
    without rows, and the store accepts the write, the pass sends one bulk
    write with an empty payload, reports success with 0 rows processed, and
    the table is as it was. *)
Theorem empty_sheet_still_writes
    (env : Env) (fuel : nat) (options : Options) (w : World)
    (H : list string) (more : list (list string))
    (sheets : list SheetProperties) (props : SheetProperties) :
  let name := default "Sheet1" (opt_sheetName options) in
  let b := default 50 (opt_batchSize options) in
  let total := rowCount props in
  values_get env (mkRange name 1 1) = Resolved (Some (H :: more)) ->
  spreadsheets_get env name = Resolved sheets ->
  find (fun s => String.eqb (title s) name) sheets = Some props ->
  total <= 2
  \/ (exists values,
        values_get env (batch_range name b total 2 0) = Resolved values
        /\ default [] values = []) ->
  upsert_error env (upserts w) = None ->
  (1 <= fuel)%nat ->
  let pass := syncSheetsToSupabase env fuel options w in
  pass.1 = Normal (Success (clock env (tick w)) (clock env (S (tick w))) 0)
  /\ submitted (trace pass.2) = submitted (trace w) ++ [[]]
  /\ upserts pass.2 = S (upserts w)
  /\ table pass.2 = table w.
Proof.
  intros name b total Hhdr Hmeta Hfind Hempty Hstore Hfuel pass.
  unfold pass. rewrite syncSheetsToSupabase_run. simpl. fold name b.
  rewrite (fetchSheetData_loop env fuel name b H more sheets props) by done.
  fold total.
  destruct fuel as [|fuel]; [lia|]. simpl.
  destruct Hempty as [Hsmall | (values & Hget & Hnone)].
  - assert ((2 <? total)%Z = false) as -> by (apply Z.ltb_ge; lia).
    simpl. rewrite Hstore. simpl.
    rewrite Nat.add_0_r.
    split_and!; try done.
    rewrite !submitted_app. simpl. by rewrite !app_nil_r.
  - destruct (2 <? total)%Z.
    + rewrite batch_range_0 in Hget.
      unfold mbind, M_bind, log_event. simpl. rewrite Hget. simpl.
      rewrite Hnone. simpl. rewrite Hstore. simpl.
      rewrite Nat.add_0_r.
      split_and!; try done.
      rewrite !submitted_app. simpl. by rewrite !app_nil_r.
    + simpl. rewrite Hstore. simpl.
      rewrite Nat.add_0_r.
      split_and!; try done.
      rewrite !submitted_app. simpl. by rewrite !app_nil_r.
Qed.

Lemma empty_sheet_still_writes_witness :
  let pass :=
    syncSheetsToSupabase Bare.env 5 (Example.options 50) initial_world in
  pass.1 = Normal (Success (Example.clk 0) (Example.clk 1) 0)
  /\ submitted (trace pass.2) = submitted (trace initial_world) ++ [[]]
  /\ upserts pass.2 = S (upserts initial_world)
  /\ table pass.2 = table initial_world.
Proof.
  apply (empty_sheet_still_writes Bare.env 5 (Example.options 50)
           initial_world ["Name"] [] [mkProps "Sheet1" 1000]
           (mkProps "Sheet1" 1000)).
  - reflexivity.
  - reflexivity.
  - reflexivity.
  - right. exists None. split; reflexivity.
  - reflexivity.
  - lia.
Defined.
